(** * datatable-filters: the filter coordinator ([src/js/filters.js]) and the
      text-input filter, embedded over an explicit model of the grid API.

    The grid (DataTables) is an external collaborator.  Only the part of its
    contract that [filters.js] consumes is modelled: the per-column search
    array, the rendered cell values, the remote URL, the jQuery-style event
    listeners ([on] / [one]) and the header DOM.  Every call the coordinator
    makes on the grid or on a filter is also appended to a [trace], which plays
    the role of the recorded call order of a mock grid. *)

From stdpp Require Import base option list gmap strings.
From Stdlib Require Import Lia.

Local Open Scope string_scope.
Local Open Scope list_scope.

(** ** Grid data *)

(** One entry of the grid's per-column search array: the arguments of
    [column(c).search(query, regex, smart)]. *)
Record Search := mkSearch {
  sSearch : string;
  bRegex : bool;
  bSmart : bool
}.

(** A filter descriptor declared on a column ([param.filter]).  [$.extend]
    copies every defined property of the descriptor over the defaults, so a
    descriptor that carries [column] or [renderColumn] overrides them. *)
Record Descriptor := mkDescriptor {
  d_type : string;
  d_column : option nat;
  d_renderColumn : option nat;
  d_extra : list (string * string)
}.

(** One element of [settings.aoColumns]. *)
Record ColumnSettings := mkColumn {
  bVisible : bool;
  sTitle : string;
  filter_descriptor : option Descriptor
}.

(** The object handed to a builder: [{column, renderColumn}] extended with the
    descriptor. *)
Record Options := mkOptions {
  o_column : nat;
  o_renderColumn : nat;
  o_type : string;
  o_extra : list (string * string)
}.

Inductive Event := EvInit | EvXhr | EvPreDraw.

(** The functions of the coordinator that are bound to grid events. *)
Inductive Handler := HOnDataTableInit | HXhrProxy | HRefreshFilters.

(** The two change sinks a filter can be registered with. *)
Inductive Callback := CbClientFilterChange | CbServerFilterChange.

Record Listener := mkListener {
  l_event : Event;
  l_once : bool;
  l_handler : Handler
}.

#[global] Instance Event_eq_dec : EqDecision Event.
Proof. solve_decision. Defined.
#[global] Instance Handler_eq_dec : EqDecision Handler.
Proof. solve_decision. Defined.
#[global] Instance Callback_eq_dec : EqDecision Callback.
Proof. solve_decision. Defined.
#[global] Instance Search_eq_dec : EqDecision Search.
Proof. solve_decision. Defined.

Record Grid := mkGrid {
  aoColumns : list ColumnSettings;
  aoData : list (list string);        (* rendered 'display' value of each cell, row by row *)
  aoPreSearchCols : list Search;      (* applied search of each column *)
  ajaxUrl : string;
  listeners : list Listener;
  header : list nat                   (* rows appended to the header: number of th.fond-header cells *)
}.

Inductive Call :=
| CallSearch (col : nat) (s : Search)
| CallDraw
| CallAjaxUrl (u : string)
| CallAjaxReload
| CallOn (ev : Event) (h : Handler)
| CallOne (ev : Event) (h : Handler)
| CallAppendHeader (cells : nat)
| CallRegister (col : nat) (cb : Callback)
| CallRender (col : nat) (container : nat) (title : string) (data : list string)
| CallAddClass (col : nat) (cls : string)
| CallAttr (col : nat) (kvs : list (string * string))
| CallRefresh (col : nat) (data : list string).

#[global] Instance Call_eq_dec : EqDecision Call.
Proof. solve_decision. Defined.

(** *** Grid API *)

(** [column(col).search(q, regex, smart)]: a column that does not exist selects
    nothing, so the call changes nothing. *)
Definition column_search (col : nat) (s : Search) (g : Grid) : Grid :=
  mkGrid (aoColumns g) (aoData g) (<[col := s]> (aoPreSearchCols g))
         (ajaxUrl g) (listeners g) (header g).

Definition ajax_url (u : string) (g : Grid) : Grid :=
  mkGrid (aoColumns g) (aoData g) (aoPreSearchCols g) u (listeners g) (header g).

Definition bind (l : Listener) (g : Grid) : Grid :=
  mkGrid (aoColumns g) (aoData g) (aoPreSearchCols g) (ajaxUrl g)
         (listeners g ++ [l]) (header g).

Definition on (ev : Event) (h : Handler) : Grid → Grid := bind (mkListener ev false h).
Definition one (ev : Event) (h : Handler) : Grid → Grid := bind (mkListener ev true h).

(** [off]: what the wrapper installed by [one] does before it runs the
    handler; listeners are matched by event and by handler identity. *)
Definition same_binding (ev : Event) (h : Handler) (l : Listener) : bool :=
  bool_decide (l_event l = ev) && bool_decide (l_handler l = h).

Definition on_event (ev : Event) (l : Listener) : bool := bool_decide (l_event l = ev).

Definition off (ev : Event) (h : Handler) (g : Grid) : Grid :=
  mkGrid (aoColumns g) (aoData g) (aoPreSearchCols g) (ajaxUrl g)
         (List.filter (λ l, negb (same_binding ev h l)) (listeners g)) (header g).

Definition append_header (cells : nat) (g : Grid) : Grid :=
  mkGrid (aoColumns g) (aoData g) (aoPreSearchCols g) (ajaxUrl g)
         (listeners g) (header g ++ [cells]).

(** [.unique()]: keeps the first occurrence of every value, in order. *)
Definition unique_step (out : list string) (v : string) : list string :=
  if bool_decide (v ∈ out) then out else out ++ [v].

Definition unique (src : list string) : list string :=
  foldl unique_step [] src.

(** [cells(null, col)]: the cell of column [col] in each of the given rows. *)
Definition cells (col : nat) (rows : list (list string)) : list string :=
  omap (λ row : list string, row !! col) rows.

Section GridSearch.
(** How the grid decides whether a cell satisfies a column search (regular
    expressions, smart search, case folding) is the grid's business. *)
Variable grid_match : Search → string → bool.

Fixpoint row_passes (ss : list Search) (row : list string) : bool :=
  match ss, row with
  | s :: ss', cell :: row' => grid_match s cell && row_passes ss' row'
  | _, _ => true
  end.

(** Rows selected by [{search: 'applied'}]. *)
Definition applied_rows (g : Grid) : list (list string) :=
  List.filter (row_passes (aoPreSearchCols g)) (aoData g).
End GridSearch.

(** ** The filter capability contract *)

Class FilterOps (F : Type) := {
  column : F → nat;
  renderColumn : F → nat;
  className : F → option string;
  attrs : F → option (list (string * string));
  init : F → F;
  register : Callback → F → F;
  render : nat → string → list string → F → F;
  refresh : list string → F → F;
  hasValue : F → bool;
  getQuery : F → string;
  getInitialQuery : F → string;
  getServerQuery : F → string;
  isRegexMatch : F → bool;
  isServerSide : F → bool
}.

(** ** Errors *)

Inductive Error := TypeError (what : string).

Inductive result (A : Type) :=
| Ok (a : A)
| Throw (e : Error).
Arguments Ok {A} a.
Arguments Throw {A} e.

Definition rbind {A B} (m : result A) (k : A → result B) : result B :=
  match m with
  | Ok a => k a
  | Throw e => Throw e
  end.

(** ** The coordinator *)

Record Filters (F : Type) := mkFilters {
  tableAPI : Grid;
  url : string;
  filters : list F;
  trace : list Call
}.
Arguments mkFilters {F}.
Arguments tableAPI {F}.
Arguments url {F}.
Arguments filters {F}.
Arguments trace {F}.

Section Coordinator.
Context {F : Type} `{FilterOps F}.

Variable grid_match : Search → string → bool.

(** [Filters.prototype.builders]: the registry, keyed by filter type name. *)
Variable builders : gmap string (Options → F).

(** *** State plumbing *)

(** A call on the grid: its effect on the grid, recorded in the trace. *)
Definition api (k : Call) (op : Grid → Grid) (c : Filters F) : Filters F :=
  mkFilters (op (tableAPI c)) (url c) (filters c) (trace c ++ [k]).

(** A call on a filter object (no effect on the grid), recorded in the trace. *)
Definition note (k : Call) (c : Filters F) : Filters F :=
  mkFilters (tableAPI c) (url c) (filters c) (trace c ++ [k]).

(** Filter objects are shared by reference: [this.filters] and every array
    derived from it hold the same objects.  A reference is an index into
    [filters]; mutating the object writes the store at that index. *)
Definition store (i : nat) (f : F) (c : Filters F) : Filters F :=
  mkFilters (tableAPI c) (url c) (<[i := f]> (filters c)) (trace c).

(** [refs.forEach(body, this)] over an array of filter references. *)
Definition forEach (refs : list nat) (body : Filters F → nat → Filters F)
    (c : Filters F) : Filters F :=
  foldl body c refs.

(** The references held by [this.filters], in collection order. *)
Definition all_refs (c : Filters F) : list nat := seq 0 (length (filters c)).

(** *** Column data accessor *)

Definition getColumnData (c : Filters F) (col : nat) : list string :=
  unique (cells col (aoData (tableAPI c))).

Definition getFilteredColumnData (c : Filters F) (col : nat) : list string :=
  unique (cells col (applied_rows grid_match (tableAPI c))).

(** *** Predicate application *)

Definition query_of (f : F) : Search :=
  mkSearch (getQuery f) (isRegexMatch f) false.

Definition initial_query_of (f : F) : Search :=
  mkSearch (getInitialQuery f) (isRegexMatch f) false.

Definition applyFilter (f : F) (c : Filters F) : Filters F :=
  api (CallSearch (column f) (query_of f)) (column_search (column f) (query_of f)) c.

Definition applyInitialFilter (f : F) (c : Filters F) : Filters F :=
  api (CallSearch (column f) (initial_query_of f))
      (column_search (column f) (initial_query_of f)) c.

(** *** Construction *)

(** [$.extend({column: col, renderColumn: renderCol}, param.filter)] *)
Definition extend (col renderCol : nat) (d : Descriptor) : Options :=
  mkOptions (default col (d_column d)) (default renderCol (d_renderColumn d))
            (d_type d) (d_extra d).

(** The [$.each] loop over [settings.aoColumns]: [col] is the index of the
    column at hand, [renderCol] counts the visible columns before it.
    Calling a builder that the registry does not hold throws. *)
Fixpoint build_filters (cols : list ColumnSettings) (col renderCol : nat)
    (acc : list F) : result (list F) :=
  match cols with
  | [] => Ok acc
  | param :: rest =>
      rbind
        match filter_descriptor param with
        | Some d =>
            match builders !! d_type d with
            | Some builder => Ok (acc ++ [builder (extend col renderCol d)])
            | None => Throw (TypeError "builders[param.filter.type] is not a function")
            end
        | None => Ok acc
        end
        (λ acc', build_filters rest (S col)
                   (if bVisible param then S renderCol else renderCol) acc')
  end.

(** [new Filters(settings)]; [g] is the grid that [settings] stands for. *)
Definition new_Filters (g : Grid) : result (Filters F) :=
  rbind (build_filters (aoColumns g) 0 0 [])
    (λ fs,
      let this := mkFilters g (ajaxUrl g) [] [] in
      if (0 <? length fs)%nat then
        let this := mkFilters g (ajaxUrl g) fs [] in
        let this :=
          forEach (all_refs this)
            (λ c i, match filters c !! i with
                    | Some f => store i (init f) c
                    | None => c
                    end) this in
        let this :=
          forEach (all_refs this)
            (λ c i, match filters c !! i with
                    | Some f => applyInitialFilter f c
                    | None => c
                    end) this in
        Ok (api (CallOn EvInit HOnDataTableInit) (on EvInit HOnDataTableInit) this)
      else Ok this).

(** [$(document).on('preInit.dt', ...)]: the grid announces its settings
    before it loads any data, and the coordinator is built there. *)
Definition preInit_dt (settings : Grid) : result (Filters F) := new_Filters settings.

(** *** Methods that do not redraw *)

Definition xhr_proxy (c : Filters F) : Filters F :=
  api (CallOne EvPreDraw HRefreshFilters) (one EvPreDraw HRefreshFilters) c.

Definition registerAjaxListener (c : Filters F) : Filters F :=
  api (CallOn EvXhr HXhrProxy) (on EvXhr HXhrProxy) c.

Definition setupHeaderRow (c : Filters F) : Filters F :=
  let cells := length (List.filter bVisible (aoColumns (tableAPI c))) in
  api (CallAppendHeader cells) (append_header cells) c.

Definition renderFilter (c : Filters F) (i : nat) : Filters F :=
  match filters c !! i with
  | Some f =>
      let col := column f in
      let title := default "" (sTitle <$> aoColumns (tableAPI c) !! col) in
      let container := renderColumn f in
      let cb := if isServerSide f then CbServerFilterChange else CbClientFilterChange in
      let f := register cb f in
      let c := note (CallRegister col cb) (store i f c) in
      let data := getColumnData c col in
      let f := render container title data f in
      let c := note (CallRender col container title data) (store i f c) in
      let c :=
        match className f with
        | Some cls => if String.eqb cls "" then c else note (CallAddClass col cls) c
        | None => c
        end in
      match attrs f with
      | Some kvs => note (CallAttr col kvs) c
      | None => c
      end
  | None => c
  end.

Definition renderFilters (c : Filters F) : Filters F :=
  forEach (all_refs c) renderFilter c.

Definition onDataTableInit (c : Filters F) : Filters F :=
  renderFilters (registerAjaxListener (setupHeaderRow c)).

Definition onServerFilterChange (c : Filters F) : Filters F :=
  let serverQuery :=
    String.concat "&" (map getServerQuery (List.filter isServerSide (filters c))) in
  let u := url c +:+ "?" +:+ serverQuery in
  api CallAjaxReload id (api (CallAjaxUrl u) (ajax_url u) c).

(** *** Methods that redraw *)

Section Redrawing.
(** [this.tableAPI.draw()].  The grid's redraw dispatches [preDraw] to its
    listeners, which can run coordinator code again, so the method is taken
    as given here and tied to the event loop below. *)
Variable draw : Filters F → option (Filters F).

Definition drawTable (c : Filters F) : option (Filters F) := draw c.

(** The body shared by both refresh loops: refresh the filter from the
    data the accessor [data_of] returns for its column, then reapply it. *)
Definition refreshAndApply (data_of : Filters F → nat → list string)
    (c : Filters F) (i : nat) : Filters F :=
  match filters c !! i with
  | Some f =>
      let col := column f in
      let data := data_of c col in
      let f := refresh data f in
      applyFilter f (note (CallRefresh col data) (store i f c))
  | None => c
  end.

Definition refreshFilters (c : Filters F) : option (Filters F) :=
  drawTable (forEach (all_refs c) (refreshAndApply getColumnData) c).

(** [changed] is [params.filter], read only before the loop mutates any
    filter object. *)
Definition filtersToRefresh (changed : F) (c : Filters F) : list nat :=
  if hasValue changed then
    List.filter
      (λ i, match filters c !! i with
            | Some f => negb (column f =? column changed)%nat
            | None => false
            end)
      (all_refs c)
  else all_refs c.

Definition onClientFilterChange (changed : F) (c : Filters F)
    : option (Filters F) :=
  let c := applyFilter changed c in
  let refs := filtersToRefresh changed c in
  drawTable (forEach refs (refreshAndApply getFilteredColumnData) c).

(** *** Event dispatch *)

Definition run_handler (h : Handler) (c : Filters F) : option (Filters F) :=
  match h with
  | HOnDataTableInit => Some (onDataTableInit c)
  | HXhrProxy => Some (xhr_proxy c)
  | HRefreshFilters => refreshFilters c
  end.

(** A listener bound with [one] first unbinds its function from the event
    (see [off]), then runs it. *)
Definition invoke (l : Listener) (c : Filters F) : option (Filters F) :=
  let c :=
    if l_once l
    then mkFilters (off (l_event l) (l_handler l) (tableAPI c)) (url c) (filters c) (trace c)
    else c in
  run_handler (l_handler l) c.

Fixpoint invoke_all (ls : list Listener) (c : Filters F) : option (Filters F) :=
  match ls with
  | [] => Some c
  | l :: ls' =>
      match invoke l c with
      | Some c' => invoke_all ls' c'
      | None => None
      end
  end.

(** The listeners of the event are collected when it is triggered and all
    of them run, in binding order. *)
Definition trigger (ev : Event) (c : Filters F) : option (Filters F) :=
  invoke_all
    (List.filter (on_event ev) (listeners (tableAPI c))) c.
End Redrawing.

(** *** The grid's side of the event loop *)

(** A redraw of the grid: [preDraw] goes to the listeners first.  A handler
    that calls [draw()] re-enters the redraw; [fuel] bounds the nesting. *)
Fixpoint redraw (fuel : nat) (c : Filters F) : option (Filters F) :=
  match fuel with
  | 0 => None
  | S n => trigger (λ c', redraw n (note CallDraw c')) EvPreDraw c
  end.

(** [tableAPI.draw()] as the coordinator calls it. *)
Definition draw (fuel : nat) (c : Filters F) : option (Filters F) :=
  redraw fuel (note CallDraw c).

(** The grid has finished its first load. *)
Definition initialised (fuel : nat) (c : Filters F) : option (Filters F) :=
  trigger (draw fuel) EvInit c.

(** The grid replaces its rows by the ones it has fetched. *)
Definition load (rows : list (list string)) (c : Filters F) : Filters F :=
  mkFilters
    (mkGrid (aoColumns (tableAPI c)) rows (aoPreSearchCols (tableAPI c))
            (ajaxUrl (tableAPI c)) (listeners (tableAPI c)) (header (tableAPI c)))
    (url c) (filters c) (trace c).

(** A remote fetch has completed with [rows]: [xhr] is dispatched, the grid
    takes the rows in, then it redraws. *)
Definition fetched (fuel : nat) (rows : list (list string)) (c : Filters F)
    : option (Filters F) :=
  match trigger (draw fuel) EvXhr c with
  | Some c' => redraw fuel (load rows c')
  | None => None
  end.
End Coordinator.

(** ** The text-input filter *)

Module InputFilter.
(** [dom] is the value of the filter's [<input>] element; there is no
    element before [init]. *)
Record t := mk {
  column : nat;
  renderColumn : nat;
  dom : option string
}.

Definition undefined_dom {A} : result A :=
  Throw (TypeError "this.$dom is undefined").

Definition getInitialQuery (this : t) : string := "".

Definition noSelectionQuery (this : t) : string := "".

Definition isRegexMatch (this : t) : bool := true.

Definition init (this : t) : t :=
  mk (column this) (renderColumn this) (Some (getInitialQuery this)).

Definition populate (this : t) : t := this.

Definition update (this : t) : t := this.

Definition hasValue (this : t) : result bool :=
  match dom this with
  | Some v => Ok (negb (String.eqb v ""))
  | None => undefined_dom
  end.

Definition selectedQuery (this : t) : result string :=
  match dom this with
  | Some v => Ok v
  | None => undefined_dom
  end.

Definition reset (this : t) : result t :=
  match dom this with
  | Some _ => Ok (mk (column this) (renderColumn this) (Some ""))
  | None => undefined_dom
  end.

(** [Filters.prototype.builders.input] *)
Definition builder (settings : Options) : t :=
  mk (o_column settings) (o_renderColumn settings) None.
End InputFilter.

(** ** A filter with an option list, used to run the coordinator on concrete
       grids: it keeps the values it is rendered and refreshed with. *)

Module OptionListFilter.
Record t := mk {
  col : nat;
  rcol : nat;
  value : string;
  initial : string;
  options : list string;
  server : bool;
  sink : option Callback
}.

Definition with_options (data : list string) (f : t) : t :=
  mk (col f) (rcol f) (value f) (initial f) data (server f) (sink f).

#[export] Instance ops : FilterOps t := {|
  column := col;
  renderColumn := rcol;
  className := λ _, None;
  attrs := λ _, None;
  init := λ f, mk (col f) (rcol f) (initial f) (initial f) (options f) (server f) (sink f);
  register := λ cb f, mk (col f) (rcol f) (value f) (initial f) (options f) (server f) (Some cb);
  render := λ _ _ data f, with_options data f;
  refresh := λ data f, with_options data f;
  hasValue := λ f, negb (String.eqb (value f) "");
  getQuery := value;
  getInitialQuery := initial;
  getServerQuery := λ f, "c=" +:+ value f;
  isRegexMatch := λ _, false;
  isServerSide := server
|}.

Definition builder (settings : Options) : t :=
  mk (o_column settings) (o_renderColumn settings) "" (default "" (snd <$> head (o_extra settings)))
     [] (bool_decide (o_type settings = "remote")) None.
End OptionListFilter.

(** A grid search that keeps the cells containing the query (what the grid
    does for a query without special characters, case apart). *)
Fixpoint contains (q s : string) : bool :=
  String.prefix q s ||
  match s with
  | EmptyString => false
  | String _ s' => contains q s'
  end.

Definition substring_match (s : Search) (cell : string) : bool :=
  contains (sSearch s) cell.

(** * Notions used in the statements *)

(** Distinct values of a column over the rows that pass a search array. *)
Definition filtered_data (gm : Search → string → bool) (rows : list (list string))
    (ss : list Search) (col : nat) : list string :=
  unique (cells col (List.filter (row_passes gm ss) rows)).

(** ** Per-column writes *)

(** The search array after a sequence of [(column, search)] writes. *)
Definition write (ss : list Search) (w : nat * Search) : list Search :=
  <[w.1 := w.2]> ss.

Definition last_write (j : nat) (ws : list (nat * Search)) : option Search :=
  snd <$> last (List.filter (λ w : nat * Search, w.1 =? j)%nat ws).

(** What [getColumnData] reads: every row counts. *)
Definition all_values (g : Grid) (col : nat) : list string :=
  unique (cells col (aoData g)).

(** What [getFilteredColumnData] reads: the rows passing the applied search
    of every column. *)
Definition applied_values (gm : Search → string → bool) (g : Grid) (col : nat)
    : list string :=
  filtered_data gm (aoData g) (aoPreSearchCols g) col.

(** The search array a sequence of calls leaves behind. *)
Definition replay_call (ss : list Search) (k : Call) : list Search :=
  match k with
  | CallSearch col s => <[col := s]> ss
  | _ => ss
  end.

Definition replay (ss : list Search) (calls : list Call) : list Search :=
  foldl replay_call ss calls.

(** The columns refreshed by a sequence of calls, in call order. *)
Definition refreshed_columns (calls : list Call) : list nat :=
  omap (λ k, match k with CallRefresh col _ => Some col | _ => None end) calls.

Section Notions.
Context {F : Type} {ops : FilterOps F}.
Variable gm : Search → string → bool.
Variable builders : gmap string (Options → F).
Implicit Types (c : Filters F) (f : F) (g : Grid) (fs : list F).

(** A reference [i] into the store [l] holds the object [x]. *)
Definition holds {A} (l : list A) (i : nat) (x : A) : Prop := l !! i = Some x.

(** What one pass of the loop body calls for filter [f] given [data]. *)
Definition refresh_calls (data : list string) (f : F) : list Call :=
  [CallRefresh (column f) data;
   CallSearch (column (refresh data f)) (query_of (refresh data f))].

(** The loop over the filter values [fs] in order, starting from grid [g],
    when the accessor reads [gdata] from the grid: the calls made, the grid
    reached and the refreshed filters. *)
Fixpoint cascade_calls (gdata : Grid → nat → list string) (g : Grid) (fs : list F)
    : list Call :=
  match fs with
  | [] => []
  | f :: fs' =>
      let f' := refresh (gdata g (column f)) f in
      refresh_calls (gdata g (column f)) f ++
      cascade_calls gdata (column_search (column f') (query_of f') g) fs'
  end.

Fixpoint cascade_grid (gdata : Grid → nat → list string) (g : Grid) (fs : list F)
    : Grid :=
  match fs with
  | [] => g
  | f :: fs' =>
      let f' := refresh (gdata g (column f)) f in
      cascade_grid gdata (column_search (column f') (query_of f') g) fs'
  end.

Fixpoint cascade_filters (gdata : Grid → nat → list string) (g : Grid) (fs : list F)
    : list F :=
  match fs with
  | [] => []
  | f :: fs' =>
      let f' := refresh (gdata g (column f)) f in
      f' :: cascade_filters gdata (column_search (column f') (query_of f') g) fs'
  end.

(** The write a refreshed filter makes to the search array. *)
Definition search_write (data_of : nat → list string) (f : F) : nat * Search :=
  (column (refresh (data_of (column f)) f), query_of (refresh (data_of (column f)) f)).

(** The filter [f] after [refreshFilters] has refreshed it. *)
Definition refreshed (c : Filters F) (f : F) : F :=
  refresh (getColumnData c (column f)) f.

(** The filters the cascade refreshes, by value. *)
Definition refresh_set (changed : F) (fs : list F) : list F :=
  if hasValue changed
  then List.filter (λ f, negb (column f =? column changed)%nat) fs
  else fs.

Definition initial_write (f : F) : nat * Search := (column f, initial_query_of f).

(** The query string built from the server-side filters. *)
Definition joined_server_query (fs : list F) : string :=
  String.concat "&" (getServerQuery <$> List.filter isServerSide fs).

(** No listener is waiting for [preDraw]. *)
Definition idle (c : Filters F) : Prop :=
  List.filter (on_event EvPreDraw) (listeners (tableAPI c)) = [].

(** The state [registerAjaxListener] leaves the [xhr] listeners in. *)
Definition listening (c : Filters F) : Prop :=
  List.filter (on_event EvXhr) (listeners (tableAPI c)) =
  [mkListener EvXhr false HXhrProxy].

Definition keeps_url (op : Filters F → option (Filters F)) : Prop :=
  ∀ c c', op c = Some c' → url c' = url c.

(** The states of a coordinator built on the grid [g]: what the grid's events,
    the filters' change notifications, the user's edits of a filter and the
    grid's own changes (rows loaded, sorting, ...) lead to. *)
Inductive reachable (g : Grid) : Filters F → Prop :=
| reach_new c :
    new_Filters builders g = Ok c → reachable g c
| reach_initialised n c c' :
    reachable g c → initialised n c = Some c' → reachable g c'
| reach_fetched n rows c c' :
    reachable g c → fetched n rows c = Some c' → reachable g c'
| reach_redraw n c c' :
    reachable g c → redraw n c = Some c' → reachable g c'
| reach_client n changed c c' :
    reachable g c → onClientFilterChange gm (draw n) changed c = Some c' →
    reachable g c'
| reach_server c :
    reachable g c → reachable g (onServerFilterChange c)
| reach_edit i f c :
    reachable g c → reachable g (store i f c)
| reach_grid g' c :
    reachable g c → reachable g (mkFilters g' (url c) (filters c) (trace c)).

End Notions.

(** * The specification's wording, where the code differs *)

Section AsSpecified.
Context {F : Type}.
Variable gm : Search → string → bool.

(** Following the specification of [refreshAll]: every [refresh] call made
    between [c] and [c'] receives the filtered distinct values of its
    column, that is, the values over the rows passing the searches applied
    at the time of the call. *)
Definition refreshes_with_filtered_values (c c' : Filters F) : Prop :=
  ∀ pre col d post,
    trace c' = trace c ++ pre ++ CallRefresh col d :: post →
    d = filtered_data gm (aoData (tableAPI c))
          (replay (aoPreSearchCols (tableAPI c)) pre) col.

(** Following the specification of the cascade: a row counts when it passes
    the search of every column other than [own]. *)
Fixpoint others_pass (own j : nat) (ss : list Search) (row : list string) : bool :=
  match ss, row with
  | s :: ss', cell :: row' =>
      (bool_decide (j = own) || gm s cell) && others_pass own (S j) ss' row'
  | _, _ => true
  end.

Definition values_excluding_own (rows : list (list string)) (ss : list Search)
    (col : nat) : list string :=
  unique (cells col (List.filter (others_pass col 0 ss) rows)).

(** Every [refresh] call made between [c] and [c'] receives the distinct
    values of its column over the rows passing every other column's search,
    its own search left out. *)
Definition refreshes_with_values_excluding_own (c c' : Filters F) : Prop :=
  ∀ pre col d post,
    trace c' = trace c ++ pre ++ CallRefresh col d :: post →
    d = values_excluding_own (aoData (tableAPI c))
          (replay (aoPreSearchCols (tableAPI c)) pre) col.
End AsSpecified.

(** * Concrete grids *)

Module Example.
Import OptionListFilter.

Definition registry : gmap string (Options → t) :=
  <["select" := builder]> (<["remote" := builder]> ∅).

Definition no_search : Search := mkSearch "" false true.

Definition rows : list (list string) :=
  [["ann"; "rome"; "1"]; ["bob"; "rome"; "2"]; ["al"; "oslo"; "3"]].

(** Three visible columns: two client-side filters, one server-side. *)
Definition people : Grid :=
  mkGrid
    [mkColumn true "Name" (Some (mkDescriptor "select" None None [("initial", "a")]));
     mkColumn true "Town" (Some (mkDescriptor "select" None None []));
     mkColumn true "Zip" (Some (mkDescriptor "remote" None None []))]
    rows [no_search; no_search; no_search] "/rows" [] [].

(** The same grid with no filter declared. *)
Definition plain : Grid :=
  mkGrid
    [mkColumn true "Name" None; mkColumn false "Town" None; mkColumn true "Zip" None]
    rows [no_search; no_search; no_search] "/rows" [] [].

(** A grid whose second column asks for a filter type nobody registered. *)
Definition misconfigured : Grid :=
  mkGrid
    [mkColumn true "Name" (Some (mkDescriptor "select" None None []));
     mkColumn true "Town" (Some (mkDescriptor "range" None None []))]
    rows [no_search; no_search] "/rows" [] [].

Definition empty_coordinator : Filters t := mkFilters people "/rows" [] [].

Definition constructed : Filters t :=
  Eval vm_compute in
    match new_Filters registry people with
    | Ok c => c
    | Throw _ => empty_coordinator
    end.

(** After the grid's [init] event. *)
Definition rendered : Filters t :=
  Eval vm_compute in default empty_coordinator (initialised 1 constructed).

Definition name_filter (v : string) : t :=
  mk 0 0 v "a" ["ann"; "bob"; "al"] false (Some CbClientFilterChange).

Definition town_filter (v : string) : t :=
  mk 1 1 v "" ["rome"; "oslo"] false (Some CbClientFilterChange).

Definition zip_filter (v : string) : t :=
  mk 2 2 v "" ["1"; "2"; "3"] true (Some CbServerFilterChange).

(** The user has picked "bob" in the name filter, and the grid shows it. *)
Definition bob_picked : Filters t :=
  mkFilters
    (column_search 0 (mkSearch "bob" false false) (tableAPI rendered))
    "/rows" [name_filter "bob"; town_filter ""; zip_filter ""] [].

(** "rome" is applied to the town column; the user now types "a" in the
    name filter. *)
Definition rome_applied : Filters t :=
  mkFilters
    (column_search 1 (mkSearch "rome" false false) (tableAPI rendered))
    "/rows" [name_filter "a"; town_filter "rome"; zip_filter ""] [].
End Example.

(** * Notions for construction, rendering and the state after a change *)

(** The number of visible columns before column [i]. *)
Definition visible_before (cols : list ColumnSettings) (i : nat) : nat :=
  length (List.filter bVisible (take i cols)).

(** Column [i] carries a filter descriptor. *)
Definition declares (cols : list ColumnSettings) (i : nat) : bool :=
  bool_decide (is_Some (cols !! i ≫= filter_descriptor)).

(** The columns that carry a descriptor, in column order. *)
Definition declared (cols : list ColumnSettings) : list nat :=
  List.filter (declares cols) (seq 0 (length cols)).

(** The calls that touch neither the remote URL, nor the listeners, nor the
    header. *)
Definition local_call (k : Call) : bool :=
  match k with
  | CallSearch _ _ | CallRefresh _ _ | CallDraw => true
  | _ => false
  end.

Section MoreNotions.
Context {F : Type} {ops : FilterOps F}.
Variable builders : gmap string (Options → F).
Implicit Types (c : Filters F) (f : F) (g : Grid).

(** [f] is what the registered builder makes of the descriptor of column
    [i], placed at [i] and at the number of visible columns before [i]
    (unless the descriptor says otherwise, see [extend]). *)
Definition built_from (cols : list ColumnSettings) (i : nat) (f : F) : Prop :=
  ∃ param d builder,
    cols !! i = Some param ∧ filter_descriptor param = Some d ∧
    builders !! d_type d = Some builder ∧
    f = builder (extend i (visible_before cols i) d).

(** The sink [renderFilter] registers with a filter. *)
Definition sink_of (f : F) : Callback :=
  if isServerSide f then CbServerFilterChange else CbClientFilterChange.

Definition title_of (g : Grid) (col : nat) : string :=
  default "" (sTitle <$> aoColumns g !! col).

(** The filter [f] after [renderFilter]. *)
Definition rendered_filter (g : Grid) (f : F) : F :=
  render (renderColumn f) (title_of g (column f)) (all_values g (column f))
         (register (sink_of f) f).

(** What [renderFilter] calls for [f]. *)
Definition render_calls (g : Grid) (f : F) : list Call :=
  [CallRegister (column f) (sink_of f);
   CallRender (column f) (renderColumn f) (title_of g (column f))
              (all_values g (column f))] ++
  match className (rendered_filter g f) with
  | Some cls => if String.eqb cls "" then [] else [CallAddClass (column f) cls]
  | None => []
  end ++
  match attrs (rendered_filter g f) with
  | Some kvs => [CallAttr (column f) kvs]
  | None => []
  end.

(** The search applied to the column of every filter is the filter's query. *)
Definition agrees (c : Filters F) : Prop :=
  ∀ f, f ∈ filters c →
       column f < length (aoPreSearchCols (tableAPI c)) →
       aoPreSearchCols (tableAPI c) !! column f = Some (query_of f).

Definition keeps_size (op : Filters F → option (Filters F)) : Prop :=
  ∀ c c', op c = Some c' → length (filters c') = length (filters c).
End MoreNotions.

(** A grid whose second column is hidden; every column declares a filter. *)
Module HiddenColumn.
Import OptionListFilter.

Definition grid : Grid :=
  mkGrid
    [mkColumn true "Name" (Some (mkDescriptor "select" None None []));
     mkColumn false "Town" (Some (mkDescriptor "select" None None []));
     mkColumn true "Zip" (Some (mkDescriptor "select" None None []))]
    Example.rows [Example.no_search; Example.no_search; Example.no_search] "/rows" [] [].

Definition built : list t :=
  [mk 0 0 "" "" [] false None; mk 1 1 "" "" [] false None; mk 2 1 "" "" [] false None].
End HiddenColumn.

(** * Properties *)

(** ** The column data accessor *)

Lemma unique_foldl (src out : list string) :
  NoDup out →
  NoDup (foldl unique_step out src) ∧
  ∀ x, x ∈ foldl unique_step out src ↔ x ∈ out ∨ x ∈ src.
Proof.
  revert out. induction src as [|v src IH]; intros out Hout; simpl.
  - split; [done|]. intros x. rewrite elem_of_nil. tauto.
  - unfold unique_step at 2 4. case_bool_decide as Hv.
    + destruct (IH out Hout) as [Hnd Hin]. split; [done|].
      intros x. rewrite Hin, elem_of_cons. split; [tauto|].
      intros [?|[->|?]]; tauto.
    + assert (NoDup (out ++ [v])) as Hout'.
      { apply NoDup_app. split_and!; [done| |apply NoDup_singleton].
        intros x Hx ->%list_elem_of_singleton. done. }
      destruct (IH _ Hout') as [Hnd Hin]. split; [done|].
      intros x. rewrite Hin, elem_of_app, list_elem_of_singleton, elem_of_cons. tauto.
Qed.

Lemma unique_NoDup (src : list string) : NoDup (unique src).
Proof. apply unique_foldl, NoDup_nil_2. Qed.

Lemma elem_of_unique (src : list string) (x : string) : x ∈ unique src ↔ x ∈ src.
Proof.
  unfold unique. destruct (unique_foldl src [] NoDup_nil_2) as [_ Hin].
  rewrite Hin, elem_of_nil. tauto.
Qed.

Lemma elem_of_cells (col : nat) (rows : list (list string)) (x : string) :
  x ∈ cells col rows ↔ ∃ row, row ∈ rows ∧ row !! col = Some x.
Proof. unfold cells. apply list_elem_of_omap. Qed.

Lemma row_passes_spec (gm : Search → string → bool) (ss : list Search) (row : list string) :
  row_passes gm ss row = true ↔
  ∀ j s cell, ss !! j = Some s → row !! j = Some cell → gm s cell = true.
Proof.
  revert row. induction ss as [|s ss IH]; intros row; simpl.
  - split; [|done]. intros _ j s cell Hs. by rewrite lookup_nil in Hs.
  - destruct row as [|cell row].
    + split; [|done]. intros _ j s' cell' _ Hc. by rewrite lookup_nil in Hc.
    + rewrite andb_true_iff, IH. split.
      * intros [Hhd Htl] [|j] s' cell'; simpl.
        -- by intros [= <-] [= <-].
        -- apply Htl.
      * intros Hall. split.
        -- by apply (Hall 0).
        -- intros j. apply (Hall (S j)).
Qed.

Lemma elem_of_filtered_data gm rows ss col (x : string) :
  x ∈ filtered_data gm rows ss col ↔
  ∃ row, row ∈ rows ∧ row !! col = Some x ∧
         ∀ j s cell, ss !! j = Some s → row !! j = Some cell → gm s cell = true.
Proof.
  unfold filtered_data. rewrite elem_of_unique, elem_of_cells.
  split.
  - intros (row & Hrow & Hx). apply list_elem_of_In, filter_In in Hrow as [Hin Hp].
    exists row. split_and!; [by apply list_elem_of_In|done|by apply row_passes_spec].
  - intros (row & Hrow & Hx & Hp). exists row. split; [|done].
    apply list_elem_of_In, filter_In. split; [by apply list_elem_of_In|].
    by apply row_passes_spec.
Qed.

(** ** Replaying per-column writes *)

Lemma length_foldl_write ws ss : length (foldl write ss ws) = length ss.
Proof.
  revert ss. induction ws as [|w ws IH]; intros ss; simpl; [done|].
  rewrite IH. unfold write. apply length_insert.
Qed.

Lemma lookup_foldl_write ws ss j :
  foldl write ss ws !! j =
  match last_write j ws with
  | Some s => if decide (j < length ss) then Some s else None
  | None => ss !! j
  end.
Proof.
  revert ss. induction ws as [|[k s] ws IH]; intros ss; [done|].
  simpl. rewrite IH. unfold last_write, write. simpl.
  rewrite length_insert.
  destruct (Nat.eqb_spec k j) as [->|Hne].
  - destruct (List.filter _ ws) as [|w ws'] eqn:Hf.
    + simpl. destruct (decide (j < length ss)) as [Hlt|Hge].
      * by apply list_lookup_insert_eq.
      * rewrite list_insert_ge by lia. apply lookup_ge_None. lia.
    + rewrite last_cons_cons.
      destruct (last (w :: ws')) eqn:Hl; [done|].
      by rewrite last_cons in Hl; destruct (last ws').
  - destruct (last (List.filter _ ws)); simpl; [done|].
    by apply list_lookup_insert_ne.
Qed.

Lemma foldl_write_twice ws ss :
  foldl write (foldl write ss ws) ws = foldl write ss ws.
Proof.
  apply list_eq. intros j. rewrite !lookup_foldl_write, length_foldl_write.
  by destruct (last_write j ws).
Qed.

(** ** Arrays of filter references *)

Section References.
Context {A : Type}.
Implicit Types (l : list A) (q : A → bool).

Lemma holds_seq_from l full k :
  (∀ j x, l !! j = Some x → full !! (k + j) = Some x) →
  Forall2 (holds full) (seq k (length l)) l.
Proof.
  revert k. induction l as [|x l IH]; intros k Hfull; simpl; constructor.
  - unfold holds. rewrite <- (Nat.add_0_r k). by apply Hfull.
  - apply IH. intros j y Hj. replace (S k + j) with (k + S j) by lia. by apply Hfull.
Qed.

Lemma holds_all l : Forall2 (holds l) (seq 0 (length l)) l.
Proof. by apply holds_seq_from. Qed.

Lemma holds_filter_from q l full k :
  (∀ j x, l !! j = Some x → full !! (k + j) = Some x) →
  Forall2 (holds full)
    (List.filter (λ i, match full !! i with Some x => q x | None => false end)
                 (seq k (length l)))
    (List.filter q l).
Proof.
  revert k. induction l as [|x l IH]; intros k Hfull; simpl; [constructor|].
  assert (full !! k = Some x) as Hk.
  { rewrite <- (Nat.add_0_r k). by apply Hfull. }
  assert (∀ j y, l !! j = Some y → full !! (S k + j) = Some y) as Hfull'.
  { intros j y Hj. replace (S k + j) with (k + S j) by lia. by apply Hfull. }
  rewrite Hk. destruct (q x); [constructor; [done|]|]; by apply IH.
Qed.

Lemma holds_filter q l :
  Forall2 (holds l)
    (List.filter (λ i, match l !! i with Some x => q x | None => false end)
                 (seq 0 (length l)))
    (List.filter q l).
Proof. by apply holds_filter_from. Qed.

Lemma holds_insert_ne l i x refs xs :
  Forall2 (holds l) refs xs → i ∉ refs → Forall2 (holds (<[i := x]> l)) refs xs.
Proof.
  induction 1 as [|j y refs xs Hj _ IH]; intros Hi; constructor.
  - unfold holds. rewrite list_lookup_insert_ne; [done|].
    intros ->. apply Hi. by left.
  - apply IH. intros Hin. apply Hi. by right.
Qed.

Lemma NoDup_filter_seq (p : nat → bool) k n : NoDup (List.filter p (seq k n)).
Proof. apply NoDup_ListNoDup, List.NoDup_filter, NoDup_ListNoDup, NoDup_seq. Qed.
End References.

(** Dropping the filters that share the column of [changed] drops exactly
    [changed] when no two filters share a column. *)
Lemma filter_other_columns {A} (key : A → nat) (l : list A) (i : nat) (x : A) :
  NoDup (key <$> l) → l !! i = Some x →
  List.filter (λ y, negb (key y =? key x)%nat) l = delete i l.
Proof.
  revert i. induction l as [|y l IH]; intros i Hnd Hi; [done|].
  rewrite fmap_cons in Hnd. apply NoDup_cons in Hnd as [Hy Hnd].
  destruct i as [|i]; simpl in *.
  - injection Hi as ->. rewrite Nat.eqb_refl. simpl.
    clear IH. induction l as [|z l IHl]; [done|]. simpl.
    rewrite fmap_cons in Hy, Hnd. apply NoDup_cons in Hnd as [_ Hnd].
    apply not_elem_of_cons in Hy as [Hne Hy].
    destruct (Nat.eqb_spec (key z) (key x)) as [Heq|_]; [by symmetry in Heq|].
    simpl. f_equal. by apply IHl.
  - destruct (Nat.eqb_spec (key y) (key x)) as [Heq|_].
    + exfalso. apply Hy. rewrite Heq. apply list_elem_of_fmap_2.
      by eapply list_elem_of_lookup_2.
    + simpl. f_equal. by apply IH.
Qed.

(** ** The refresh loops, by value *)

Section Loops.
Context {F : Type} {ops : FilterOps F}.
Implicit Types (c : Filters F) (f : F) (g : Grid) (fs : list F).

Lemma length_cascade_filters gdata g fs : length (cascade_filters gdata g fs) = length fs.
Proof. revert g. induction fs as [|f fs IH]; intros g; simpl; [done|]. by rewrite IH. Qed.

Lemma refreshAndApply_holds data_of c i f :
  holds (filters c) i f →
  refreshAndApply data_of c i =
  applyFilter (refresh (data_of c (column f)) f)
    (note (CallRefresh (column f) (data_of c (column f)))
          (store i (refresh (data_of c (column f)) f) c)).
Proof. unfold holds, refreshAndApply. by intros ->. Qed.

(** Iterating over references into the shared store does what the loop by
    value does, and leaves every filter outside [refs] alone. *)
Lemma forEach_refreshAndApply data_of gdata refs fs c :
  (∀ c' col, data_of c' col = gdata (tableAPI c') col) →
  NoDup refs →
  Forall2 (holds (filters c)) refs fs →
  let c' := forEach refs (refreshAndApply data_of) c in
  tableAPI c' = cascade_grid gdata (tableAPI c) fs ∧
  trace c' = trace c ++ cascade_calls gdata (tableAPI c) fs ∧
  url c' = url c ∧
  length (filters c') = length (filters c) ∧
  Forall2 (holds (filters c')) refs (cascade_filters gdata (tableAPI c) fs) ∧
  ∀ j, j ∉ refs → filters c' !! j = filters c !! j.
Proof.
  intros Hdata. revert fs c.
  induction refs as [|i refs IH]; intros fs c Hnd Hall; simpl.
  - apply Forall2_nil_inv_l in Hall as ->. simpl.
    rewrite app_nil_r. split_and!; done.
  - apply Forall2_cons_inv_l in Hall as (f & fs' & Hi & Hall & ->).
    apply NoDup_cons in Hnd as [Hni Hnd].
    change (forEach (i :: refs) (refreshAndApply data_of) c)
      with (forEach refs (refreshAndApply data_of) (refreshAndApply data_of c i)).
    rewrite (refreshAndApply_holds data_of c i f Hi), Hdata.
    set (d := gdata (tableAPI c) (column f)).
    set (f' := refresh d f).
    set (c1 := applyFilter f' (note (CallRefresh (column f) d) (store i f' c))).
    assert (Forall2 (holds (filters c1)) refs fs') as Hall1.
    { subst c1; simpl. by apply holds_insert_ne. }
    destruct (IH fs' c1 Hnd Hall1) as (Hg & Ht & Hu & Hlen & Hfs & Hout).
    split_and!.
    + by rewrite Hg.
    + rewrite Ht. subst c1; simpl. by rewrite <- !app_assoc.
    + by rewrite Hu.
    + rewrite Hlen. subst c1; simpl. by rewrite length_insert.
    + simpl. constructor; [|done].
      unfold holds. rewrite (Hout i Hni). subst c1; simpl.
      apply list_lookup_insert_eq. by eapply lookup_lt_Some.
    + intros j Hj. apply not_elem_of_cons in Hj as [Hne Hj].
      rewrite (Hout j Hj). subst c1; simpl. by apply list_lookup_insert_ne.
Qed.

Lemma holds_all_eq {A} (l l' : list A) :
  length l = length l' → Forall2 (holds l) (seq 0 (length l')) l' → l = l'.
Proof.
  intros Hlen Hall. apply list_eq. intros j.
  destruct (l' !! j) as [x|] eqn:Hj.
  - eapply Forall2_lookup_r in Hall as (i & Hi & Hx); [|done].
    apply lookup_seq in Hi as [-> _]. done.
  - apply lookup_ge_None. rewrite Hlen. by apply lookup_ge_None.
Qed.

(** The loop over the whole collection. *)
Lemma forEach_all data_of gdata c :
  (∀ c' col, data_of c' col = gdata (tableAPI c') col) →
  let c' := forEach (all_refs c) (refreshAndApply data_of) c in
  tableAPI c' = cascade_grid gdata (tableAPI c) (filters c) ∧
  trace c' = trace c ++ cascade_calls gdata (tableAPI c) (filters c) ∧
  url c' = url c ∧
  filters c' = cascade_filters gdata (tableAPI c) (filters c).
Proof.
  intros Hdata.
  destruct (forEach_refreshAndApply data_of gdata (all_refs c) (filters c) c Hdata)
    as (Hg & Ht & Hu & Hlen & Hfs & _).
  { apply NoDup_seq. }
  { apply holds_all. }
  split_and!; try done.
  apply holds_all_eq.
  - by rewrite length_cascade_filters.
  - by rewrite length_cascade_filters.
Qed.

(** *** What a loop leaves untouched in the grid *)

Lemma cascade_grid_frame gdata g fs :
  aoColumns (cascade_grid gdata g fs) = aoColumns g ∧
  aoData (cascade_grid gdata g fs) = aoData g ∧
  ajaxUrl (cascade_grid gdata g fs) = ajaxUrl g ∧
  listeners (cascade_grid gdata g fs) = listeners g ∧
  header (cascade_grid gdata g fs) = header g.
Proof.
  revert g. induction fs as [|f fs IH]; intros g; simpl; [done|].
  by destruct (IH (column_search (column (refresh (gdata g (column f)) f))
                     (query_of (refresh (gdata g (column f)) f)) g))
    as (-> & -> & -> & -> & ->).
Qed.
End Loops.

(** ** Redraws with no pending listener *)

Section Idle.
Context {F : Type} {ops : FilterOps F}.
Implicit Types (c : Filters F).

Lemma redraw_S n c : redraw (S n) c = trigger (draw n) EvPreDraw c.
Proof. done. Qed.

Lemma redraw_idle n c : idle c → redraw (S n) c = Some c.
Proof. unfold idle. intros Hidle. rewrite redraw_S. unfold trigger. by rewrite Hidle. Qed.

Lemma draw_idle n c : idle c → draw (S n) c = Some (note CallDraw c).
Proof. intros Hidle. unfold draw. by apply redraw_idle. Qed.

Lemma off_idle (ls : list Listener) h :
  List.filter (on_event EvPreDraw) ls = [] →
  List.filter (λ l, negb (same_binding EvPreDraw h l)) ls = ls.
Proof.
  induction ls as [|l ls IH]; [done|]. simpl.
  unfold on_event at 1, same_binding at 1.
  case_bool_decide as Hev; [done|]. simpl. intros Hls. f_equal. by apply IH.
Qed.
End Idle.

(** ** Values read from the grid *)

Section Cascades.
Context {F : Type} {ops : FilterOps F}.
Implicit Types (c : Filters F) (f : F) (g : Grid) (fs : list F).

Lemma getColumnData_all_values c col : getColumnData c col = all_values (tableAPI c) col.
Proof. done. Qed.

Lemma getFilteredColumnData_applied_values gm c col :
  getFilteredColumnData gm c col = applied_values gm (tableAPI c) col.
Proof. done. Qed.

(** Unfiltered data does not depend on the searches the loop applies, so
    the loop over all rows is a plain map. *)
Lemma cascade_all_values g fs :
  cascade_calls all_values g fs =
    flat_map (λ f, refresh_calls (all_values g (column f)) f) fs ∧
  cascade_filters all_values g fs =
    map (λ f, refresh (all_values g (column f)) f) fs ∧
  aoPreSearchCols (cascade_grid all_values g fs) =
    foldl write (aoPreSearchCols g) (map (search_write (all_values g)) fs).
Proof.
  unfold all_values, search_write.
  generalize (eq_refl (aoData g)). generalize (aoData g) at 1 3 4 5 6 as rows.
  intros rows Hrows. revert g Hrows.
  induction fs as [|f fs IH]; intros g Hrows; [done|].
  cbn [cascade_calls cascade_filters cascade_grid flat_map map foldl]. rewrite <- Hrows.
  set (f' := refresh (unique (cells (column f) rows)) f).
  destruct (IH (column_search (column f') (query_of f') g) Hrows) as (-> & -> & ->).
  done.
Qed.

Lemma cascade_calls_no_draw gdata g fs : CallDraw ∉ cascade_calls gdata g fs.
Proof.
  revert g. induction fs as [|f fs IH]; intros g; simpl; [apply not_elem_of_nil|].
  rewrite !not_elem_of_cons. split_and!; [done..|apply IH].
Qed.

Lemma refreshed_columns_cascade gdata g fs :
  refreshed_columns (cascade_calls gdata g fs) = column <$> fs.
Proof.
  revert g. induction fs as [|f fs IH]; intros g; simpl; [done|].
  f_equal. apply IH.
Qed.
End Cascades.

(** ** refreshFilters *)

Section RefreshFilters.
Context {F : Type} {ops : FilterOps F}.
Implicit Types (c : Filters F) (f : F).

Lemma refreshFilters_idle n c :
  idle c →
  ∃ c', refreshFilters (draw (S n)) c = Some c' ∧
    filters c' = map (refreshed c) (filters c) ∧
    trace c' =
      trace c ++
      flat_map (λ f, refresh_calls (getColumnData c (column f)) f) (filters c) ++
      [CallDraw] ∧
    aoPreSearchCols (tableAPI c') =
      foldl write (aoPreSearchCols (tableAPI c))
            (map (search_write (getColumnData c)) (filters c)) ∧
    aoData (tableAPI c') = aoData (tableAPI c) ∧
    listeners (tableAPI c') = listeners (tableAPI c) ∧
    url c' = url c.
Proof.
  intros Hidle. unfold refreshFilters, drawTable.
  destruct (forEach_all getColumnData all_values c getColumnData_all_values)
    as (Hg & Ht & Hu & Hfs).
  destruct (cascade_all_values (tableAPI c) (filters c)) as (Hcalls & Hfilters & Hss).
  destruct (cascade_grid_frame all_values (tableAPI c) (filters c))
    as (_ & Hrows & _ & Hls & _).
  set (c1 := forEach (all_refs c) (refreshAndApply getColumnData) c) in *.
  assert (idle c1) as Hidle1.
  { unfold idle. by rewrite Hg, Hls. }
  exists (note CallDraw c1). split; [by apply draw_idle|]. simpl.
  rewrite Hg, Ht, Hfs, Hu, Hcalls, Hfilters, Hss, Hrows, Hls.
  rewrite <- app_assoc. done.
Qed.

(** C1 (as amended).  [refreshFilters] goes through every filter in
    collection order; for each one it reads the distinct rendered values of
    the filter's column over all rows of the grid, whatever searches are
    applied, hands them to the filter's [refresh], and applies the query of
    the refreshed filter to its column; it then calls [draw] exactly once,
    as its last call. *)
Theorem refreshFilters_reads_all_rows n c :
  idle c →
  ∃ c', refreshFilters (draw (S n)) c = Some c' ∧
    filters c' = map (λ f, refresh (getColumnData c (column f)) f) (filters c) ∧
    trace c' =
      trace c ++
      flat_map (λ f,
        [CallRefresh (column f) (getColumnData c (column f));
         CallSearch (column (refreshed c f)) (query_of (refreshed c f))]) (filters c) ++
      [CallDraw] ∧
    (∀ f x, x ∈ getColumnData c (column f) ↔
            ∃ row, row ∈ aoData (tableAPI c) ∧ row !! column f = Some x) ∧
    (∀ f, NoDup (getColumnData c (column f))).
Proof.
  intros Hidle.
  destruct (refreshFilters_idle n c Hidle) as (c' & Hrun & Hfs & Ht & _).
  exists c'. split_and!; [done..| |].
  - intros f x. unfold getColumnData. by rewrite elem_of_unique, elem_of_cells.
  - intros f. apply unique_NoDup.
Qed.
End RefreshFilters.

Section RefreshTwice.
Context {F : Type} {ops : FilterOps F}.
Implicit Types (c : Filters F) (f : F).

Lemma getColumnData_rows c c' col :
  aoData (tableAPI c') = aoData (tableAPI c) → getColumnData c' col = getColumnData c col.
Proof. unfold getColumnData. by intros ->. Qed.

(** C9.  For filters whose [refresh] gives the same filter when it is given
    the same values again and does not move the filter to another column,
    a second [refreshFilters] right after the first leaves the filters
    (hence their option lists) and the applied column searches as the first
    left them. *)
Theorem refreshFilters_twice n c :
  idle c →
  (∀ d f, refresh d (refresh d f) = refresh d f) →
  (∀ d f, column (refresh d f) = column f) →
  ∃ c1 c2,
    refreshFilters (draw (S n)) c = Some c1 ∧
    refreshFilters (draw (S n)) c1 = Some c2 ∧
    filters c2 = filters c1 ∧
    aoPreSearchCols (tableAPI c2) = aoPreSearchCols (tableAPI c1).
Proof.
  intros Hidle Hidem Hcol.
  destruct (refreshFilters_idle n c Hidle)
    as (c1 & Hrun1 & Hfs1 & _ & Hss1 & Hrows1 & Hls1 & _).
  assert (idle c1) as Hidle1 by (unfold idle; by rewrite Hls1).
  destruct (refreshFilters_idle n c1 Hidle1)
    as (c2 & Hrun2 & Hfs2 & _ & Hss2 & _).
  exists c1, c2. split_and!; [done..| |].
  - rewrite Hfs2, Hfs1, map_map. apply map_ext. intros f.
    unfold refreshed. rewrite (Hcol (getColumnData c (column f)) f).
    rewrite (getColumnData_rows c c1) by done. apply Hidem.
  - rewrite Hss2, Hss1, Hfs1, map_map.
    rewrite (map_ext (λ f, search_write (getColumnData c1) (refreshed c f))
                     (search_write (getColumnData c))).
    + apply foldl_write_twice.
    + intros f. unfold search_write, refreshed.
      rewrite (Hcol (getColumnData c (column f)) f).
      rewrite (getColumnData_rows c c1) by done. by rewrite Hidem, Hcol.
Qed.
End RefreshTwice.

(** ** The one-shot interception of the redraw that follows a fetch *)

Section AfterFetch.
Context {F : Type} {ops : FilterOps F}.
Implicit Types (c : Filters F) (f : F).

(** C8.  Once the [xhr] listener is bound and while no [preDraw] listener is
    pending: a redraw that no fetch precedes runs nothing; a completed
    fetch followed by the grid's redraw runs [refreshFilters] exactly once, on
    the rows just fetched (one refresh and one search per filter, one
    [draw]); the listeners are then as before, so the next fetch arms the
    interception again, and a further redraw without a fetch runs nothing. *)
Theorem refresh_once_per_fetch n rows c :
  listening c → idle c →
  redraw (S n) c = Some c ∧
  ∃ c', fetched (S (S n)) rows c = Some c' ∧
    trace c' =
      trace c ++
      CallOne EvPreDraw HRefreshFilters ::
      flat_map (λ f, refresh_calls (unique (cells (column f) rows)) f) (filters c) ++
      [CallDraw] ∧
    filters c' = map (λ f, refresh (unique (cells (column f) rows)) f) (filters c) ∧
    listening c' ∧ idle c' ∧
    redraw (S n) c' = Some c'.
Proof.
  intros Hxhr Hidle. split; [by apply redraw_idle|].
  unfold fetched, trigger at 1. unfold listening in Hxhr. rewrite Hxhr.
  cbn [invoke_all invoke l_once l_handler run_handler].
  set (c1 := load rows (xhr_proxy c)).
  rewrite (redraw_S (S n) c1). unfold trigger.
  assert (List.filter (on_event EvPreDraw) (listeners (tableAPI c1)) =
          [mkListener EvPreDraw true HRefreshFilters]) as ->.
  { subst c1; simpl. by rewrite List.filter_app, Hidle. }
  cbn [invoke_all invoke l_once l_handler l_event run_handler].
  set (c2 := mkFilters (off EvPreDraw HRefreshFilters (tableAPI c1)) (url c1)
                       (filters c1) (trace c1)).
  assert (listeners (tableAPI c2) = listeners (tableAPI c)) as Hls2.
  { subst c2 c1; simpl. rewrite List.filter_app, (off_idle _ _ Hidle). simpl.
    apply app_nil_r. }
  assert (idle c2) as Hidle2 by (unfold idle; by rewrite Hls2).
  destruct (refreshFilters_idle n c2 Hidle2)
    as (c' & Hrun & Hfs & Ht & _ & _ & Hls & _).
  rewrite Hrun. exists c'.
  assert (listeners (tableAPI c') = listeners (tableAPI c)) as Hls' by congruence.
  assert (idle c') as Hidle' by (unfold idle; by rewrite Hls').
  split_and!; try done.
  - rewrite Ht. subst c2 c1; simpl. by rewrite <- app_assoc.
  - unfold listening. by rewrite Hls'.
  - by apply redraw_idle.
Qed.
End AfterFetch.

(** ** onClientFilterChange *)

Section ClientFilterChange.
Context {F : Type} {ops : FilterOps F}.
Variable gm : Search → string → bool.
Implicit Types (c : Filters F) (f changed : F).

Lemma onClientFilterChange_idle n changed c :
  idle c →
  ∃ c', onClientFilterChange gm (draw (S n)) changed c = Some c' ∧
    trace c' =
      trace c ++
      CallSearch (column changed) (query_of changed) ::
      cascade_calls (applied_values gm) (tableAPI (applyFilter changed c))
                    (refresh_set changed (filters c)) ++
      [CallDraw] ∧
    (∀ j f, filters c !! j = Some f →
            hasValue changed = true → column f = column changed →
            filters c' !! j = Some f).
Proof.
  intros Hidle. unfold onClientFilterChange, drawTable.
  set (c1 := applyFilter changed c).
  assert (∃ refs,
    refs = filtersToRefresh changed c1 ∧ NoDup refs ∧
    Forall2 (holds (filters c1)) refs (refresh_set changed (filters c)) ∧
    ∀ j f, filters c !! j = Some f →
           hasValue changed = true → column f = column changed → j ∉ refs)
    as (refs & <- & Hnd & Hall & Hskip).
  { exists (filtersToRefresh changed c1). split; [done|].
    unfold filtersToRefresh, refresh_set, all_refs.
    change (filters c1) with (filters c).
    destruct (hasValue changed); split_and!.
    - apply NoDup_filter_seq.
    - apply (holds_filter (λ f, negb (column f =? column changed)%nat)).
    - intros j f Hj _ Hcol Hin.
      apply list_elem_of_In, filter_In in Hin as [_ Hp].
      rewrite Hj, Hcol, Nat.eqb_refl in Hp. done.
    - apply NoDup_seq.
    - apply holds_all.
    - done. }
  destruct (forEach_refreshAndApply (getFilteredColumnData gm) (applied_values gm)
              refs (refresh_set changed (filters c)) c1
              (getFilteredColumnData_applied_values gm) Hnd Hall)
    as (Hg & Ht & _ & _ & _ & Hout).
  set (c2 := forEach refs (refreshAndApply (getFilteredColumnData gm)) c1) in *.
  assert (idle c2) as Hidle2.
  { unfold idle. rewrite Hg.
    destruct (cascade_grid_frame (applied_values gm) (tableAPI c1)
                (refresh_set changed (filters c))) as (_ & _ & _ & -> & _).
    done. }
  exists (note CallDraw c2). split; [by apply draw_idle|]. simpl. split.
  - rewrite Ht. subst c1; simpl. by rewrite <- !app_assoc.
  - intros j f Hj Hv Hcol. rewrite Hout; [done|]. by eapply Hskip.
Qed.

(** C3.  [onClientFilterChange] first applies the query of the changed
    filter to its column.  It then refreshes and reapplies, in collection
    order, every filter but the changed one when the changed filter has a
    value, and every filter, the changed one included, when it has none.  It
    calls [draw] once, as its last call.  [i] is the place of the changed
    filter in the collection; no two filters share a column. *)
Theorem onClientFilterChange_cascade n i changed c :
  idle c →
  filters c !! i = Some changed →
  NoDup (column <$> filters c) →
  let others := if hasValue changed then delete i (filters c) else filters c in
  ∃ c' cascade,
    onClientFilterChange gm (draw (S n)) changed c = Some c' ∧
    trace c' =
      trace c ++ CallSearch (column changed) (query_of changed) :: cascade ++ [CallDraw] ∧
    cascade =
      cascade_calls (applied_values gm) (tableAPI (applyFilter changed c)) others ∧
    refreshed_columns cascade = column <$> others ∧
    (CallDraw ∉ cascade) ∧
    (hasValue changed = true → filters c' !! i = Some changed).
Proof.
  intros Hidle Hi Hnd others.
  destruct (onClientFilterChange_idle n changed c Hidle) as (c' & Hrun & Ht & Hkeep).
  assert (refresh_set changed (filters c) = others) as Hset.
  { unfold refresh_set, others. destruct (hasValue changed); [|done].
    by apply (filter_other_columns column). }
  rewrite Hset in Ht.
  exists c', (cascade_calls (applied_values gm) (tableAPI (applyFilter changed c)) others).
  split_and!; try done.
  - apply refreshed_columns_cascade.
  - apply cascade_calls_no_draw.
  - intros Hv. by apply (Hkeep i changed).
Qed.

(** Where a cascade refreshes a filter, the values it passes are those the
    grid selects under the searches applied by then. *)
Lemma cascade_calls_data g fs tail pre col d post :
  (∀ col' d', CallRefresh col' d' ∉ tail) →
  cascade_calls (applied_values gm) g fs ++ tail = pre ++ CallRefresh col d :: post →
  d = filtered_data gm (aoData g) (replay (aoPreSearchCols g) pre) col.
Proof.
  intros Htail. revert g pre.
  induction fs as [|f fs IH]; intros g pre; simpl.
  - intros ->. exfalso. apply (Htail col d), elem_of_app. right. by left.
  - destruct pre as [|x [|y pre]]; simpl.
    + by intros [= <- <-].
    + by intros [= _ ?].
    + intros [= <- <- Hrest]. by apply IH in Hrest.
Qed.

(** C2 (as amended).  Every [refresh] call of the cascade receives the
    distinct rendered values of the filter's column over the rows that pass
    the search applied to every column at the time of the call, the search of
    the refreshed filter's own column included. *)
Theorem onClientFilterChange_reads_applied_rows n changed c :
  idle c →
  ∃ c', onClientFilterChange gm (draw (S n)) changed c = Some c' ∧
    ∀ pre col d post,
      trace c' = trace c ++ pre ++ CallRefresh col d :: post →
      NoDup d ∧
      ∀ x, x ∈ d ↔
        ∃ row, row ∈ aoData (tableAPI c) ∧ row !! col = Some x ∧
          ∀ j s cell,
            replay (aoPreSearchCols (tableAPI c)) pre !! j = Some s →
            row !! j = Some cell → gm s cell = true.
Proof.
  intros Hidle.
  destruct (onClientFilterChange_idle n changed c Hidle) as (c' & Hrun & Ht & _).
  exists c'. split; [done|]. intros pre col d post Hsplit.
  rewrite Ht in Hsplit. apply app_inv_head in Hsplit.
  destruct pre as [|x pre]; simpl in Hsplit; [done|].
  injection Hsplit as <- Hsplit.
  apply cascade_calls_data in Hsplit.
  - subst d. split; [apply unique_NoDup|]. intros x.
    by rewrite elem_of_filtered_data.
  - intros col' d' Hin. by apply list_elem_of_singleton in Hin.
Qed.
End ClientFilterChange.

(** ** Construction *)

Section Construction.
Context {F : Type} {ops : FilterOps F}.
Variable builders : gmap string (Options → F).
Implicit Types (c : Filters F) (f : F) (g : Grid) (cols : list ColumnSettings).

Lemma build_filters_none cols col renderCol acc :
  Forall (λ param, filter_descriptor param = None) cols →
  build_filters builders cols col renderCol acc = Ok acc.
Proof.
  intros Hcols. revert col renderCol.
  induction Hcols as [|param cols Hparam _ IH]; intros col renderCol; simpl; [done|].
  rewrite Hparam. simpl. apply IH.
Qed.

Lemma build_filters_unknown cols j param d col renderCol acc :
  cols !! j = Some param →
  filter_descriptor param = Some d →
  builders !! d_type d = None →
  ∃ e, build_filters builders cols col renderCol acc = Throw e.
Proof.
  intros Hj Hd Hb. revert j col renderCol acc Hj.
  induction cols as [|param0 cols IH]; intros j col renderCol acc Hj; [done|].
  destruct j as [|j]; simpl in *.
  - injection Hj as ->. rewrite Hd, Hb. simpl. eauto.
  - destruct (filter_descriptor param0) as [d0|]; simpl.
    + destruct (builders !! d_type d0); simpl; [by eapply IH|eauto].
    + by eapply IH.
Qed.

(** C5.  When no column declares a filter descriptor, construction gives a
    coordinator with no filter and leaves the grid as it found it: no
    listener is bound, the header gets no row, no column search is applied,
    and no call is made at all. *)
Theorem new_Filters_without_descriptor g :
  Forall (λ param, filter_descriptor param = None) (aoColumns g) →
  ∃ c, new_Filters builders g = Ok c ∧
    tableAPI c = g ∧ filters c = [] ∧ trace c = [].
Proof.
  intros Hcols. unfold new_Filters.
  rewrite (build_filters_none _ _ _ _ Hcols). simpl. eauto.
Qed.

(** C6.  When a column's descriptor names a filter type that the registry
    does not hold, construction throws: no coordinator is returned. *)
Theorem new_Filters_unknown_type g j param d :
  aoColumns g !! j = Some param →
  filter_descriptor param = Some d →
  builders !! d_type d = None →
  ∃ e, new_Filters builders g = Throw e.
Proof.
  intros Hj Hd Hb. unfold new_Filters.
  destruct (build_filters_unknown _ _ _ _ 0 0 [] Hj Hd Hb) as [e ->]. simpl. eauto.
Qed.

(** *** The two loops of the constructor *)

Lemma forEach_init_from rest before c :
  filters c = before ++ rest →
  foldl (λ c i, match filters c !! i with
                | Some f => store i (init f) c
                | None => c
                end) c (seq (length before) (length rest)) =
  mkFilters (tableAPI c) (url c) (before ++ (init <$> rest)) (trace c).
Proof.
  revert before c. induction rest as [|f rest IH]; intros before c Hfs.
  - simpl. rewrite <- Hfs. by destruct c.
  - cbn [length seq foldl]. rewrite Hfs, list_lookup_middle by done.
    replace (S (length before)) with (length (before ++ [init f]))
      by (rewrite length_app; simpl; lia).
    rewrite IH.
    + simpl. by rewrite <- app_assoc.
    + simpl. rewrite Hfs, insert_app_r_alt, Nat.sub_diag by done.
      simpl. by rewrite <- app_assoc.
Qed.

Lemma forEach_read_from (act : F → Filters F → Filters F) rest before c :
  (∀ f c', filters (act f c') = filters c') →
  filters c = before ++ rest →
  foldl (λ c i, match filters c !! i with
                | Some f => act f c
                | None => c
                end) c (seq (length before) (length rest)) =
  foldl (λ c f, act f c) c rest.
Proof.
  intros Hact. revert before c. induction rest as [|f rest IH]; intros before c Hfs; [done|].
  cbn [length seq foldl]. rewrite Hfs, list_lookup_middle by done.
  replace (S (length before)) with (length (before ++ [f]))
    by (rewrite length_app; simpl; lia).
  apply IH. rewrite Hact, Hfs. by rewrite <- app_assoc.
Qed.

Lemma forEach_init c :
  forEach (all_refs c)
    (λ c i, match filters c !! i with
            | Some f => store i (init f) c
            | None => c
            end) c =
  mkFilters (tableAPI c) (url c) (init <$> filters c) (trace c).
Proof. by apply (forEach_init_from (filters c) []). Qed.

Lemma forEach_read (act : F → Filters F → Filters F) c :
  (∀ f c', filters (act f c') = filters c') →
  forEach (all_refs c)
    (λ c i, match filters c !! i with
            | Some f => act f c
            | None => c
            end) c =
  foldl (λ c f, act f c) c (filters c).
Proof. intros Hact. by apply (forEach_read_from act (filters c) []). Qed.

Lemma foldl_applyInitialFilter fs c :
  foldl (λ c f, applyInitialFilter f c) c fs =
  mkFilters
    (mkGrid (aoColumns (tableAPI c)) (aoData (tableAPI c))
            (foldl write (aoPreSearchCols (tableAPI c)) (initial_write <$> fs))
            (ajaxUrl (tableAPI c)) (listeners (tableAPI c)) (header (tableAPI c)))
    (url c) (filters c)
    (trace c ++ ((λ f, CallSearch (column f) (initial_query_of f)) <$> fs)).
Proof.
  revert c. induction fs as [|f fs IH]; intros c; simpl.
  - rewrite app_nil_r. by destruct c as [[] ? ? ?].
  - rewrite IH. simpl. by rewrite <- app_assoc.
Qed.

Lemma new_Filters_Ok g c :
  new_Filters builders g = Ok c →
  filters c ≠ [] →
  ∃ fs, build_filters builders (aoColumns g) 0 0 [] = Ok fs ∧
    filters c = init <$> fs ∧
    url c = ajaxUrl g ∧
    trace c =
      ((λ f, CallSearch (column f) (initial_query_of f)) <$> filters c) ++
      [CallOn EvInit HOnDataTableInit] ∧
    aoPreSearchCols (tableAPI c) =
      foldl write (aoPreSearchCols g) (initial_write <$> filters c) ∧
    aoData (tableAPI c) = aoData g ∧
    ajaxUrl (tableAPI c) = ajaxUrl g ∧
    listeners (tableAPI c) = listeners g ++ [mkListener EvInit false HOnDataTableInit] ∧
    header (tableAPI c) = header g.
Proof.
  unfold new_Filters.
  destruct (build_filters builders (aoColumns g) 0 0 []) as [fs|e]; [|done].
  cbn [rbind]. destruct (Nat.ltb_spec 0 (length fs)) as [Hlen|Hlen].
  - intros Hc _. injection Hc as <-. exists fs. split; [done|].
    rewrite forEach_init. cbn [tableAPI url filters trace].
    rewrite (forEach_read applyInitialFilter) by done.
    rewrite foldl_applyInitialFilter. simpl. done.
  - intros Hc. by injection Hc as <-.
Qed.
End Construction.

Lemma filter_key_nil (ws : list (nat * Search)) j :
  j ∉ ws.*1 → List.filter (λ w : nat * Search, (w.1 =? j)%nat) ws = [].
Proof.
  induction ws as [|[k s] ws IH]; [done|]. simpl.
  intros [Hne Hj]%not_elem_of_cons.
  destruct (Nat.eqb_spec k j) as [->|_]; [done|]. by apply IH.
Qed.

Lemma last_write_None (ws : list (nat * Search)) j :
  j ∉ ws.*1 → last_write j ws = None.
Proof. intros Hj. unfold last_write. by rewrite filter_key_nil. Qed.

Lemma last_write_NoDup (ws : list (nat * Search)) j s :
  NoDup ws.*1 → (j, s) ∈ ws → last_write j ws = Some s.
Proof.
  induction ws as [|[k s0] ws IH]; intros Hnd Hin; [by apply elem_of_nil in Hin|].
  rewrite fmap_cons in Hnd. apply NoDup_cons in Hnd as [Hk Hnd]. simpl in Hk.
  unfold last_write. simpl.
  apply elem_of_cons in Hin as [[= -> ->]|Hin].
  - rewrite Nat.eqb_refl, filter_key_nil by done. done.
  - destruct (Nat.eqb_spec k j) as [->|_].
    + exfalso. apply Hk. apply list_elem_of_fmap. by exists (j, s).
    + by apply IH.
Qed.

Section InitialQueries.
Context {F : Type} {ops : FilterOps F}.
Variable builders : gmap string (Options → F).
Implicit Types (c : Filters F) (f : F) (g : Grid).

(** C7.  A construction that yields filters applies, in collection order,
    the initial query of every (initialised) filter to the filter's column,
    binds the [init] listener and makes no other call: nothing is fetched or
    drawn in between.  When no two filters share a column, the search array
    the grid is left with holds each filter's initial query at the filter's
    column and is unchanged elsewhere. *)
Theorem new_Filters_applies_initial_queries g c :
  new_Filters builders g = Ok c →
  filters c ≠ [] →
  NoDup (column <$> filters c) →
  trace c =
    ((λ f, CallSearch (column f) (initial_query_of f)) <$> filters c) ++
    [CallOn EvInit HOnDataTableInit] ∧
  (∀ f, f ∈ filters c → column f < length (aoPreSearchCols g) →
        aoPreSearchCols (tableAPI c) !! column f = Some (initial_query_of f)) ∧
  (∀ j, j ∉ column <$> filters c →
        aoPreSearchCols (tableAPI c) !! j = aoPreSearchCols g !! j) ∧
  aoData (tableAPI c) = aoData g.
Proof.
  intros Hnew Hne Hnd.
  destruct (new_Filters_Ok builders g c Hnew Hne)
    as (fs & _ & _ & _ & Ht & Hss & Hrows & _).
  assert ((initial_write <$> filters c).*1 = column <$> filters c) as Hkeys.
  { rewrite <- list_fmap_compose. done. }
  split_and!; [done| | |done].
  - intros f Hf Hlt. rewrite Hss, lookup_foldl_write.
    rewrite (last_write_NoDup _ _ (initial_query_of f)).
    + by rewrite decide_True.
    + by rewrite Hkeys.
    + apply list_elem_of_fmap. by exists f.
  - intros j Hj. rewrite Hss, lookup_foldl_write, last_write_None; [done|].
    by rewrite Hkeys.
Qed.
End InitialQueries.

(** ** From construction to the first fetch *)

Section Initialised.
Context {F : Type} {ops : FilterOps F}.
Implicit Types (c : Filters F) (f : F) (g : Grid).

Lemma renderFilters_tableAPI c : tableAPI (renderFilters c) = tableAPI c.
Proof.
  unfold renderFilters, forEach. generalize (all_refs c) as refs. intros refs. revert c.
  induction refs as [|i refs IH]; intros c; simpl; [done|].
  rewrite IH. unfold renderFilter. destruct (filters c !! i) as [f|]; [|done].
  destruct (attrs _), (className _) as [cls|]; try destruct (String.eqb cls ""); done.
Qed.

(** X15.  Construction on a grid nobody listens to yet, followed by the grid's
    [init] event, leaves exactly the [xhr] listener of [registerAjaxListener]
    and nothing pending on [preDraw]. *)
Lemma initialised_listening (builders : gmap string (Options → F)) g c n :
  listeners g = [] →
  new_Filters builders g = Ok c →
  filters c ≠ [] →
  ∃ c', initialised n c = Some c' ∧ listening c' ∧ idle c'.
Proof.
  intros Hnone Hnew Hne.
  destruct (new_Filters_Ok builders g c Hnew Hne)
    as (fs & _ & _ & _ & _ & _ & _ & _ & Hls & _).
  rewrite Hnone in Hls. simpl in Hls.
  unfold initialised, trigger. rewrite Hls. simpl.
  eexists. split; [done|].
  unfold listening, idle, onDataTableInit.
  rewrite renderFilters_tableAPI. simpl. by rewrite Hls.
Qed.

End Initialised.

(** ** The base URL *)

Section BaseUrl.
Context {F : Type} {ops : FilterOps F}.
Variable gm : Search → string → bool.
Variable builders : gmap string (Options → F).
Implicit Types (c : Filters F) (f : F) (g : Grid).

Lemma forEach_url refs (body : Filters F → nat → Filters F) c :
  (∀ c' i, url (body c' i) = url c') → url (forEach refs body c) = url c.
Proof.
  intros Hbody. unfold forEach. revert c.
  induction refs as [|i refs IH]; intros c; simpl; [done|].
  rewrite IH. apply Hbody.
Qed.

Lemma refreshAndApply_url data_of c i : url (refreshAndApply data_of c i) = url c.
Proof. unfold refreshAndApply. by destruct (filters c !! i). Qed.

Lemma renderFilter_url c i : url (renderFilter c i) = url c.
Proof.
  unfold renderFilter. destruct (filters c !! i) as [f|]; [|done].
  destruct (attrs _), (className _) as [cls|]; try destruct (String.eqb cls ""); done.
Qed.

Lemma refreshFilters_url drw : keeps_url drw → keeps_url (refreshFilters drw).
Proof.
  intros Hdrw c c' Hrun. unfold refreshFilters, drawTable in Hrun.
  apply Hdrw in Hrun. rewrite Hrun. apply forEach_url, refreshAndApply_url.
Qed.

Lemma onClientFilterChange_url drw changed :
  keeps_url drw → keeps_url (onClientFilterChange gm drw changed).
Proof.
  intros Hdrw c c' Hrun. unfold onClientFilterChange, drawTable in Hrun.
  apply Hdrw in Hrun. rewrite Hrun. by rewrite forEach_url by apply refreshAndApply_url.
Qed.

Lemma run_handler_url drw h : keeps_url drw → keeps_url (run_handler drw h).
Proof.
  intros Hdrw c c'. destruct h; simpl.
  - intros [= <-]. unfold onDataTableInit, renderFilters.
    by rewrite forEach_url by apply renderFilter_url.
  - by intros [= <-].
  - by apply refreshFilters_url.
Qed.

Lemma invoke_all_url drw ls : keeps_url drw → keeps_url (invoke_all drw ls).
Proof.
  intros Hdrw. induction ls as [|l ls IH]; intros c c'; simpl.
  - by intros [= <-].
  - destruct (invoke drw l c) as [c1|] eqn:Hl; [|done]. intros Hrest.
    apply IH in Hrest. rewrite Hrest.
    unfold invoke in Hl. apply run_handler_url in Hl; [|done].
    rewrite Hl. by destruct (l_once l).
Qed.

Lemma trigger_url drw ev : keeps_url drw → keeps_url (trigger drw ev).
Proof. intros Hdrw c c'. unfold trigger. by apply invoke_all_url. Qed.

Lemma redraw_url n : keeps_url (redraw (F:=F) n).
Proof.
  induction n as [|n IH]; intros c c'; [done|].
  rewrite redraw_S. apply trigger_url. intros c1 c2 Hdraw. by apply IH in Hdraw.
Qed.

Lemma draw_url n : keeps_url (draw (F:=F) n).
Proof. intros c c' Hdraw. by apply redraw_url in Hdraw. Qed.

Lemma new_Filters_url g c : new_Filters builders g = Ok c → url c = ajaxUrl g.
Proof.
  unfold new_Filters.
  destruct (build_filters builders (aoColumns g) 0 0 []) as [fs|e]; [|done].
  cbn [rbind]. destruct (0 <? length fs)%nat.
  - intros Hc. injection Hc as <-. simpl.
    rewrite forEach_url; [|intros c' i; by destruct (filters c' !! i)].
    rewrite forEach_url; [done|intros c' i; by destruct (filters c' !! i)].
  - intros Hc. by injection Hc as <-.
Qed.

(** [this.url] is read at construction and never written again. *)
Lemma reachable_url g c : reachable gm builders g c → url c = ajaxUrl g.
Proof.
  induction 1 as [c Hnew|n c c' _ IH Hrun|n rows c c' _ IH Hrun|n c c' _ IH Hrun
                 |n changed c c' _ IH Hrun|c _ IH|i f c _ IH|g' c _ IH]; try done.
  - by apply new_Filters_url.
  - apply trigger_url in Hrun; [congruence|apply draw_url].
  - unfold fetched in Hrun.
    destruct (trigger (draw n) EvXhr c) as [c1|] eqn:Hxhr; [|done].
    apply redraw_url in Hrun. apply trigger_url in Hxhr; [|apply draw_url].
    simpl in Hrun. congruence.
  - apply redraw_url in Hrun. congruence.
  - apply onClientFilterChange_url in Hrun; [congruence|apply draw_url].
Qed.

(** C4.  In any state of a coordinator built on the grid [g],
    [onServerFilterChange] joins with [&] the server query of every
    server-side filter, in collection order and whatever the filters'
    values; it sets the grid's URL to the URL the grid had at construction,
    [?] and that string, and asks for a reload.  It makes no other call: no
    column search, no filter refresh, no draw; the filters, the applied
    searches, the listeners and the base URL stay as they were. *)
Theorem onServerFilterChange_reloads g c :
  reachable gm builders g c →
  let u := ajaxUrl g +:+ "?" +:+ joined_server_query (filters c) in
  let c' := onServerFilterChange c in
  ajaxUrl (tableAPI c') = u ∧
  trace c' = trace c ++ [CallAjaxUrl u; CallAjaxReload] ∧
  aoPreSearchCols (tableAPI c') = aoPreSearchCols (tableAPI c) ∧
  aoData (tableAPI c') = aoData (tableAPI c) ∧
  listeners (tableAPI c') = listeners (tableAPI c) ∧
  filters c' = filters c ∧
  url c' = ajaxUrl g.
Proof.
  intros Hreach u c'. subst u c'.
  rewrite <- (reachable_url g c Hreach).
  unfold onServerFilterChange, joined_server_query. simpl.
  split_and!; try done. by rewrite <- app_assoc.
Qed.
End BaseUrl.

(** ** The text-input filter *)

(** C10.  Whatever the input holds, [reset] succeeds and [hasValue] then
    answers false. *)
Theorem InputFilter_reset_hasValue (this : InputFilter.t) (v : string) :
  InputFilter.dom this = Some v →
  ∃ this', InputFilter.reset this = Ok this' ∧ InputFilter.hasValue this' = Ok false.
Proof.
  intros Hdom. unfold InputFilter.reset. rewrite Hdom. eexists. split; [done|]. done.
Qed.



(** * The theorems on the example grids *)

Import OptionListFilter Example.

(** [refreshFilters] does not pass filtered values: with "bob" applied to the
    name column only one row is shown, yet the name filter is refreshed with
    the names of all three rows. *)
Lemma refreshFilters_not_filtered_values :
  ∃ c', refreshFilters (draw 1) bob_picked = Some c' ∧
    trace c' =
      [CallRefresh 0 ["ann"; "bob"; "al"]; CallSearch 0 (mkSearch "bob" false false);
       CallRefresh 1 ["rome"; "oslo"]; CallSearch 1 (mkSearch "" false false);
       CallRefresh 2 ["1"; "2"; "3"]; CallSearch 2 (mkSearch "" false false);
       CallDraw] ∧
    getFilteredColumnData substring_match bob_picked 0 = ["bob"] ∧
    ¬ refreshes_with_filtered_values substring_match bob_picked c'.
Proof.
  eexists. split_and!; [vm_compute; reflexivity..|].
  intros Hspec.
  specialize (Hspec [] 0 ["ann"; "bob"; "al"]
    [CallSearch 0 (mkSearch "bob" false false);
     CallRefresh 1 ["rome"; "oslo"]; CallSearch 1 (mkSearch "" false false);
     CallRefresh 2 ["1"; "2"; "3"]; CallSearch 2 (mkSearch "" false false);
     CallDraw] eq_refl).
  vm_compute in Hspec. discriminate Hspec.
Qed.

Lemma refreshFilters_reads_all_rows_witness :
  idle bob_picked ∧
  ∃ c', refreshFilters (draw 1) bob_picked = Some c' ∧
    filters c' =
      [name_filter "bob"; town_filter ""; zip_filter ""].
Proof.
  split; [reflexivity|].
  destruct (refreshFilters_reads_all_rows 0 bob_picked eq_refl)
    as (c' & Hrun & Hfs & _).
  exists c'. split; [exact Hrun|]. rewrite Hfs. reflexivity.
Defined.

(** The cascade does not leave a filter's own search out: "rome" is applied to
    the town column when the user types "a" in the name filter, and the town
    filter is refreshed with the towns of the rows matching both searches, not
    with the towns of the rows matching "a". *)
Lemma onClientFilterChange_own_search_counts :
  ∃ c', onClientFilterChange substring_match (draw 1) (name_filter "a") rome_applied
          = Some c' ∧
    trace c' =
      [CallSearch 0 (mkSearch "a" false false);
       CallRefresh 1 ["rome"]; CallSearch 1 (mkSearch "rome" false false);
       CallRefresh 2 ["1"]; CallSearch 2 (mkSearch "" false false);
       CallDraw] ∧
    values_excluding_own substring_match rows
      [mkSearch "a" false false; mkSearch "rome" false false; no_search] 1 =
      ["rome"; "oslo"] ∧
    ¬ refreshes_with_values_excluding_own substring_match rome_applied c'.
Proof.
  eexists. split_and!; [vm_compute; reflexivity..|].
  intros Hspec.
  specialize (Hspec [CallSearch 0 (mkSearch "a" false false)] 1 ["rome"]
    [CallSearch 1 (mkSearch "rome" false false);
     CallRefresh 2 ["1"]; CallSearch 2 (mkSearch "" false false);
     CallDraw] eq_refl).
  vm_compute in Hspec. discriminate Hspec.
Qed.

Lemma onClientFilterChange_reads_applied_rows_witness :
  idle rome_applied ∧
  ∃ c', onClientFilterChange substring_match (draw 1) (name_filter "a") rome_applied
          = Some c' ∧
    ∀ pre col d post,
      trace c' = trace rome_applied ++ pre ++ CallRefresh col d :: post → NoDup d.
Proof.
  split; [reflexivity|].
  destruct (onClientFilterChange_reads_applied_rows substring_match 0
              (name_filter "a") rome_applied eq_refl) as (c' & Hrun & Hdata).
  exists c'. split; [exact Hrun|].
  intros pre col d post Hsplit. exact (proj1 (Hdata pre col d post Hsplit)).
Defined.

Lemma onClientFilterChange_cascade_witness :
  idle rome_applied ∧
  filters rome_applied !! 0 = Some (name_filter "a") ∧
  NoDup (column <$> filters rome_applied) ∧
  ∃ c' cascade,
    onClientFilterChange substring_match (draw 1) (name_filter "a") rome_applied
      = Some c' ∧
    refreshed_columns cascade = [1; 2] ∧
    filters c' !! 0 = Some (name_filter "a").
Proof.
  assert (NoDup (column <$> filters rome_applied)) as Hnd.
  { apply (bool_decide_unpack _). vm_compute. exact I. }
  split_and!; [reflexivity|reflexivity|exact Hnd|].
  destruct (onClientFilterChange_cascade substring_match 0 0 (name_filter "a")
              rome_applied eq_refl eq_refl Hnd)
    as (c' & cascade & Hrun & _ & _ & Hcols & _ & Hkeep).
  exists c', cascade. split_and!; [exact Hrun|exact Hcols|exact (Hkeep eq_refl)].
Defined.

(** The user has typed "12" in the zip filter, which is server-side. *)
Lemma onServerFilterChange_reloads_witness :
  reachable substring_match registry people (store 2 (zip_filter "12") rendered) ∧
  ajaxUrl (tableAPI (onServerFilterChange (store 2 (zip_filter "12") rendered))) =
    "/rows?c=12".
Proof.
  assert (reachable substring_match registry people (store 2 (zip_filter "12") rendered))
    as Hreach.
  { apply reach_edit, (reach_initialised _ _ _ 1 constructed).
    - apply reach_new. vm_compute. reflexivity.
    - vm_compute. reflexivity. }
  split; [exact Hreach|].
  exact (proj1 (onServerFilterChange_reloads substring_match registry people _ Hreach)).
Defined.

Lemma new_Filters_without_descriptor_witness :
  Forall (λ param, filter_descriptor param = None) (aoColumns plain) ∧
  ∃ c, new_Filters registry plain = Ok c ∧ tableAPI c = plain.
Proof.
  assert (Forall (λ param, filter_descriptor param = None) (aoColumns plain)) as Hcols.
  { repeat constructor. }
  split; [exact Hcols|].
  destruct (new_Filters_without_descriptor registry plain Hcols) as (c & Hnew & Hg & _).
  exists c. split; [exact Hnew|exact Hg].
Defined.

Lemma new_Filters_unknown_type_witness :
  registry !! "range" = None ∧
  ∃ e, new_Filters registry misconfigured = Throw e.
Proof.
  split; [reflexivity|].
  exact (new_Filters_unknown_type registry misconfigured 1
           (mkColumn true "Town" (Some (mkDescriptor "range" None None [])))
           (mkDescriptor "range" None None []) eq_refl eq_refl eq_refl).
Defined.

Lemma new_Filters_applies_initial_queries_witness :
  new_Filters registry people = Ok constructed ∧
  filters constructed ≠ [] ∧
  NoDup (column <$> filters constructed) ∧
  aoPreSearchCols (tableAPI constructed) !! 0 = Some (mkSearch "a" false false).
Proof.
  assert (new_Filters registry people = Ok constructed) as Hnew
    by (vm_compute; reflexivity).
  assert (filters constructed ≠ []) as Hne by discriminate.
  assert (NoDup (column <$> filters constructed)) as Hnd.
  { apply (bool_decide_unpack _). vm_compute. exact I. }
  split_and!; [exact Hnew|exact Hne|exact Hnd|].
  destruct (new_Filters_applies_initial_queries registry people constructed Hnew Hne Hnd)
    as (_ & Hcols & _).
  apply (Hcols (mk 0 0 "a" "a" [] false None)).
  - left.
  - simpl. lia.
Defined.

(** A fetch brings two rows; the filters are refreshed from them, once. *)
Lemma refresh_once_per_fetch_witness :
  listening rendered ∧ idle rendered ∧
  redraw 1 rendered = Some rendered ∧
  ∃ c', fetched 2 [["cy"; "bern"; "4"]; ["di"; "bern"; "5"]] rendered = Some c' ∧
    options <$> filters c' = [["cy"; "di"]; ["bern"]; ["4"; "5"]] ∧
    redraw 1 c' = Some c'.
Proof.
  split_and!; [reflexivity|reflexivity| |].
  - exact (proj1 (refresh_once_per_fetch 0 [] rendered eq_refl eq_refl)).
  - destruct (proj2 (refresh_once_per_fetch 0 [["cy"; "bern"; "4"]; ["di"; "bern"; "5"]]
                       rendered eq_refl eq_refl))
      as (c' & Hrun & _ & Hfs & _ & _ & Hquiet).
    exists c'. split_and!; [exact Hrun| |exact Hquiet].
    rewrite Hfs. reflexivity.
Defined.

Lemma OptionListFilter_refresh_twice (d : list string) (f : t) :
  refresh d (refresh d f) = refresh d f.
Proof. reflexivity. Qed.

Lemma OptionListFilter_refresh_column (d : list string) (f : t) :
  column (refresh d f) = column f.
Proof. reflexivity. Qed.

Lemma refreshFilters_twice_witness :
  idle bob_picked ∧
  ∃ c1 c2,
    refreshFilters (draw 1) bob_picked = Some c1 ∧
    refreshFilters (draw 1) c1 = Some c2 ∧
    filters c2 = filters c1.
Proof.
  split; [reflexivity|].
  destruct (refreshFilters_twice 0 bob_picked eq_refl
              OptionListFilter_refresh_twice OptionListFilter_refresh_column)
    as (c1 & c2 & Hrun1 & Hrun2 & Hfs & _).
  exists c1, c2. split_and!; [exact Hrun1|exact Hrun2|exact Hfs].
Defined.

Lemma InputFilter_reset_hasValue_witness :
  ∃ this',
    InputFilter.reset (InputFilter.mk 0 0 (Some "foo")) = Ok this' ∧
    InputFilter.hasValue this' = Ok false.
Proof.
  exact (InputFilter_reset_hasValue (InputFilter.mk 0 0 (Some "foo")) "foo" eq_refl).
Defined.

(** * More of the coordinator *)

(** ** Where the constructor places the filters *)

Lemma visible_before_length (pre rest : list ColumnSettings) :
  visible_before (pre ++ rest) (length pre) = length (List.filter bVisible pre).
Proof. unfold visible_before. by rewrite take_app_length. Qed.




Section Placement.
Context {F : Type} {ops : FilterOps F}.
Variable builders : gmap string (Options → F).
Implicit Types (c : Filters F) (f : F) (g : Grid) (cols : list ColumnSettings).

Lemma declares_middle pre param rest :
  declares (pre ++ param :: rest) (length pre) =
  bool_decide (is_Some (filter_descriptor param)).
Proof. unfold declares. by rewrite list_lookup_middle. Qed.

Lemma build_filters_from rest pre acc fs :
  build_filters builders rest (length pre) (length (List.filter bVisible pre)) acc = Ok fs →
  ∃ new, fs = acc ++ new ∧
    Forall2 (built_from builders (pre ++ rest))
            (List.filter (declares (pre ++ rest)) (seq (length pre) (length rest))) new.
Proof.
  revert pre acc. induction rest as [|param rest IH]; intros pre acc; simpl.
  - intros [= <-]. exists []. by rewrite app_nil_r.
  - rewrite declares_middle.
    assert (∀ acc',
      build_filters builders rest (S (length pre))
        (if bVisible param
         then S (length (List.filter bVisible pre))
         else length (List.filter bVisible pre)) acc' = Ok fs →
      ∃ new, fs = acc' ++ new ∧
        Forall2 (built_from builders (pre ++ param :: rest))
          (List.filter (declares (pre ++ param :: rest))
                       (seq (S (length pre)) (length rest))) new) as Hrest.
    { intros acc' Hbuild. rewrite (cons_middle param pre rest), app_assoc.
      replace (S (length pre)) with (length (pre ++ [param]))
        by (rewrite length_app; simpl; lia).
      apply IH. rewrite List.filter_app, !length_app. simpl.
      replace (length pre + 1) with (S (length pre)) by lia.
      destruct (bVisible param); simpl;
        [replace (length (List.filter bVisible pre) + 1)
           with (S (length (List.filter bVisible pre))) by lia
        |rewrite Nat.add_0_r]; done. }
    destruct (filter_descriptor param) as [d|] eqn:Hd; simpl.
    + destruct (builders !! d_type d) as [builder|] eqn:Hb; simpl; [|done].
      intros Hbuild. apply Hrest in Hbuild as (new & -> & Hnew).
      exists (builder (extend (length pre) (length (List.filter bVisible pre)) d) :: new).
      split; [by rewrite <- app_assoc|].
      constructor; [|done].
      exists param, d, builder.
      rewrite list_lookup_middle, visible_before_length by done. done.
    + intros Hbuild. apply Hrest in Hbuild as (new & -> & Hnew).
      exists new. by split.
Qed.

(** X1.  The filters a successful construction starts from are, in column
    order, one per column that declares a descriptor: the registered builder
    applied to the descriptor extended with the column's index and with the
    number of visible columns before it. *)
Theorem build_filters_placement cols fs :
  build_filters builders cols 0 0 [] = Ok fs →
  Forall2 (built_from builders cols) (declared cols) fs.
Proof.
  intros Hbuild.
  destruct (build_filters_from cols [] [] fs Hbuild) as (new & -> & Hnew). done.
Qed.

Lemma build_filters_registered cols col renderCol acc :
  (∀ i param d, cols !! i = Some param → filter_descriptor param = Some d →
                is_Some (builders !! d_type d)) →
  ∃ fs, build_filters builders cols col renderCol acc = Ok fs.
Proof.
  revert col renderCol acc. induction cols as [|param cols IH];
    intros col renderCol acc Hreg; simpl; [eauto|].
  assert (∀ i param' d, cols !! i = Some param' → filter_descriptor param' = Some d →
                        is_Some (builders !! d_type d)) as Hreg'.
  { intros i. apply (Hreg (S i)). }
  destruct (filter_descriptor param) as [d|] eqn:Hd; simpl; [|by apply IH].
  destruct (Hreg 0 param d eq_refl Hd) as [builder ->]. simpl. by apply IH.
Qed.

(** X2.  Construction returns a coordinator exactly when the type of every
    declared descriptor is in the registry. *)
Theorem new_Filters_Ok_iff_registered g :
  (∃ c, new_Filters builders g = Ok c) ↔
  ∀ i param d, aoColumns g !! i = Some param → filter_descriptor param = Some d →
               is_Some (builders !! d_type d).
Proof.
  split.
  - intros [c Hnew] i param d Hi Hd.
    destruct (builders !! d_type d) as [builder|] eqn:Hb; [eauto|].
    destruct (build_filters_unknown builders _ _ _ _ 0 0 [] Hi Hd Hb) as [e He].
    unfold new_Filters in Hnew. by rewrite He in Hnew.
  - intros Hreg. unfold new_Filters.
    destruct (build_filters_registered (aoColumns g) 0 0 [] Hreg) as [fs ->].
    cbn [rbind]. destruct (0 <? length fs)%nat; eauto.
Qed.


End Placement.

(** ** Rendering the filters *)

Section Rendering.
Context {F : Type} {ops : FilterOps F}.
Implicit Types (c : Filters F) (f : F) (g : Grid).

Lemma renderFilter_holds c i f :
  holds (filters c) i f →
  renderFilter c i =
  mkFilters (tableAPI c) (url c) (<[i := rendered_filter (tableAPI c) f]> (filters c))
            (trace c ++ render_calls (tableAPI c) f).
Proof.
  unfold holds, renderFilter, render_calls, rendered_filter, sink_of, title_of.
  intros ->. unfold getColumnData, all_values. simpl.
  set (f2 := render _ _ _ _).
  destruct (className f2) as [cls|]; [destruct (String.eqb cls "")|];
    destruct (attrs f2); unfold note, store; simpl;
    rewrite list_insert_insert_eq, <- ?app_assoc; simpl; done.
Qed.

Lemma renderFilters_from g rest before c :
  filters c = before ++ rest →
  tableAPI c = g →
  foldl renderFilter c (seq (length before) (length rest)) =
  mkFilters g (url c) (before ++ (rendered_filter g <$> rest))
            (trace c ++ flat_map (render_calls g) rest).
Proof.
  revert before c. induction rest as [|f rest IH]; intros before c Hfs Hg.
  - rewrite app_nil_r in Hfs. simpl. rewrite !app_nil_r, <- Hfs, <- Hg. by destruct c.
  - cbn [length seq foldl].
    rewrite (renderFilter_holds c (length before) f)
      by (unfold holds; rewrite Hfs; apply list_lookup_middle; done).
    replace (S (length before)) with (length (before ++ [rendered_filter g f]))
      by (rewrite length_app; simpl; lia).
    rewrite IH.
    + cbn [url trace tableAPI flat_map fmap list_fmap]. rewrite Hg.
      f_equal; by rewrite <- app_assoc.
    + simpl. rewrite Hfs, Hg, insert_app_r_alt, Nat.sub_diag by done.
      simpl. by rewrite <- app_assoc.
    + done.
Qed.

(** X5.  [onDataTableInit] appends the header row, binds the [xhr] listener,
    and then, for each filter in collection order, registers the server-side
    sink with a server-side filter and the client-side sink with any other,
    and renders it into the header cell of its render column with the title
    of its column and the distinct values of its column over all rows.  It
    applies no search, sets no URL, asks for no reload and does not draw. *)
Theorem onDataTableInit_renders c :
  let g := tableAPI c in
  let cells := length (List.filter bVisible (aoColumns g)) in
  let c' := onDataTableInit c in
  tableAPI c' = on EvXhr HXhrProxy (append_header cells g) ∧
  filters c' =
    (λ f, render (renderColumn f) (title_of g (column f)) (all_values g (column f))
                 (register (sink_of f) f)) <$> filters c ∧
  trace c' =
    trace c ++ [CallAppendHeader cells; CallOn EvXhr HXhrProxy] ++
    flat_map (render_calls g) (filters c) ∧
  url c' = url c.
Proof.
  intros g cells c'. subst c'.
  unfold onDataTableInit, renderFilters, forEach, all_refs.
  set (c1 := registerAjaxListener (setupHeaderRow c)).
  change (filters c1) with (filters c).
  change (seq 0 (length (filters c))) with (seq (length (@nil F)) (length (filters c))).
  rewrite (renderFilters_from (tableAPI c1) (filters c) [] c1) by done.
  cbn [tableAPI filters trace url app].
  split_and!; [done| | |done].
  - reflexivity.
  - subst c1. cbn [trace registerAjaxListener setupHeaderRow api].
    rewrite <- !app_assoc. reflexivity.
Qed.
End Rendering.

(** ** The state a refresh loop leaves *)

Lemma NoDup_fmap_filter {A} (key : A → nat) (q : A → bool) (l : list A) :
  NoDup (key <$> l) → NoDup (key <$> List.filter q l).
Proof.
  induction l as [|x l IH]; [done|]. rewrite fmap_cons, NoDup_cons.
  intros [Hx Hnd]. simpl. destruct (q x); [|by apply IH].
  rewrite fmap_cons. apply NoDup_cons. split; [|by apply IH].
  intros (y & Hkey & Hy)%list_elem_of_fmap. apply Hx, list_elem_of_fmap.
  exists y. split; [done|]. by apply list_elem_of_In, filter_In in Hy as [?%list_elem_of_In _].
Qed.

Section LoopState.
Context {F : Type} {ops : FilterOps F}.
Implicit Types (c : Filters F) (f changed : F) (g : Grid) (fs : list F).

(** The write the loop makes for an already refreshed filter. *)
Lemma cascade_grid_searches gdata g fs :
  aoPreSearchCols (cascade_grid gdata g fs) =
  foldl write (aoPreSearchCols g)
        ((λ f, (column f, query_of f)) <$> cascade_filters gdata g fs).
Proof.
  revert g. induction fs as [|f fs IH]; intros g; [done|].
  cbn [cascade_grid cascade_filters fmap list_fmap foldl]. by rewrite IH.
Qed.

Lemma cascade_filters_refreshed gdata g fs :
  Forall2 (λ f f', ∃ d, f' = refresh d f) fs (cascade_filters gdata g fs).
Proof.
  revert g. induction fs as [|f fs IH]; intros g; simpl; constructor; eauto.
Qed.

Lemma cascade_filters_columns gdata g fs :
  (∀ d f, column (refresh d f) = column f) →
  column <$> cascade_filters gdata g fs = column <$> fs.
Proof.
  intros Hcol. revert g. induction fs as [|f fs IH]; intros g; [done|].
  cbn [cascade_filters fmap list_fmap]. f_equal; [apply Hcol|apply IH].
Qed.

Lemma cascade_calls_local gdata g fs :
  Forall (λ k, local_call k = true) (cascade_calls gdata g fs).
Proof.
  revert g. induction fs as [|f fs IH]; intros g; simpl; [constructor|].
  repeat constructor. apply IH.
Qed.

(** A search array written with the queries of filters on distinct columns
    holds, at the column of each of them, its query. *)
Lemma foldl_write_agrees (ss : list Search) fs f :
  NoDup (column <$> fs) → f ∈ fs → column f < length ss →
  foldl write ss ((λ f, (column f, query_of f)) <$> fs) !! column f = Some (query_of f).
Proof.
  intros Hnd Hf Hlt. rewrite lookup_foldl_write.
  rewrite (last_write_NoDup _ _ (query_of f)).
  - by rewrite decide_True.
  - by rewrite <- list_fmap_compose.
  - apply list_elem_of_fmap. by exists f.
Qed.

Lemma foldl_write_elsewhere (ss : list Search) fs (j : nat) :
  j ∉ column <$> fs →
  foldl write ss ((λ f, (column f, query_of f)) <$> fs) !! j = ss !! j.
Proof.
  intros Hj. rewrite lookup_foldl_write, last_write_None; [done|].
  by rewrite <- list_fmap_compose.
Qed.

(** X6.  After [refreshFilters], for filters on distinct columns whose
    [refresh] keeps them on their column, the search applied to each filter's
    column is the query of the filter as refreshed, and the search of every
    column without a filter is what it was. *)
Theorem refreshFilters_agrees n c :
  idle c →
  NoDup (column <$> filters c) →
  (∀ d f, column (refresh d f) = column f) →
  ∃ c', refreshFilters (draw (S n)) c = Some c' ∧
    agrees c' ∧
    ∀ j : nat, j ∉ column <$> filters c →
      aoPreSearchCols (tableAPI c') !! j = aoPreSearchCols (tableAPI c) !! j.
Proof.
  intros Hidle Hnd Hcol.
  destruct (refreshFilters_idle n c Hidle) as (c' & Hrun & Hfs & _ & Hss & _).
  assert (search_write (getColumnData c) <$> filters c =
          (λ f, (column f, query_of f)) <$> filters c') as Hwrites.
  { rewrite Hfs. change (map (refreshed c) (filters c)) with (refreshed c <$> filters c).
    by rewrite <- list_fmap_compose. }
  assert (column <$> filters c' = column <$> filters c) as Hcols.
  { rewrite Hfs. change (map (refreshed c) (filters c)) with (refreshed c <$> filters c).
    rewrite <- list_fmap_compose. apply list_fmap_ext. intros _ f _. apply Hcol. }
  change (map (search_write (getColumnData c)) (filters c))
    with (search_write (getColumnData c) <$> filters c) in Hss.
  rewrite Hwrites in Hss.
  exists c'. split_and!; [done| |].
  - intros f Hf Hlt. rewrite Hss in Hlt |- *. rewrite length_foldl_write in Hlt.
    apply foldl_write_agrees; [by rewrite Hcols|done..].
  - intros j Hj. rewrite Hss. apply foldl_write_elsewhere. by rewrite Hcols.
Qed.
End LoopState.

(** ** The state a client-side change leaves *)

Section ClientState.
Context {F : Type} {ops : FilterOps F}.
Variable gm : Search → string → bool.
Implicit Types (c : Filters F) (f changed : F) (g : Grid) (fs : list F).

Lemma filtersToRefresh_holds changed c :
  NoDup (filtersToRefresh changed c) ∧
  Forall2 (holds (filters c)) (filtersToRefresh changed c)
          (refresh_set changed (filters c)).
Proof.
  unfold filtersToRefresh, refresh_set, all_refs. destruct (hasValue changed); split.
  - apply NoDup_filter_seq.
  - apply (holds_filter (λ f, negb (column f =? column changed)%nat)).
  - apply NoDup_seq.
  - apply holds_all.
Qed.

(** A reference is left out of the refresh only when the changed filter has a
    value and the reference's filter sits on the changed filter's column. *)
Lemma filtersToRefresh_skipped changed c (j : nat) f :
  filters c !! j = Some f → j ∉ filtersToRefresh changed c →
  hasValue changed = true ∧ column f = column changed.
Proof.
  intros Hj Hskip. unfold filtersToRefresh, all_refs in Hskip.
  assert (j ∈ seq 0 (length (filters c))) as Hin.
  { apply elem_of_seq. apply lookup_lt_Some in Hj. lia. }
  destruct (hasValue changed); [|done]. split; [done|].
  destruct (Nat.eqb_spec (column f) (column changed)) as [Heq|Hne]; [done|].
  exfalso. apply Hskip, list_elem_of_In, filter_In. split; [by apply list_elem_of_In|].
  rewrite Hj. by apply Nat.eqb_neq in Hne as ->.
Qed.

Lemma onClientFilterChange_state n changed c :
  idle c →
  let g1 := column_search (column changed) (query_of changed) (tableAPI c) in
  let refs := filtersToRefresh changed c in
  let chosen := refresh_set changed (filters c) in
  ∃ c', onClientFilterChange gm (draw (S n)) changed c = Some c' ∧
    tableAPI c' = cascade_grid (applied_values gm) g1 chosen ∧
    trace c' =
      trace c ++ CallSearch (column changed) (query_of changed) ::
      cascade_calls (applied_values gm) g1 chosen ++ [CallDraw] ∧
    url c' = url c ∧
    length (filters c') = length (filters c) ∧
    Forall2 (holds (filters c')) refs (cascade_filters (applied_values gm) g1 chosen) ∧
    ∀ j, j ∉ refs → filters c' !! j = filters c !! j.
Proof.
  intros Hidle g1 refs chosen. unfold onClientFilterChange, drawTable.
  set (c1 := applyFilter changed c).
  destruct (filtersToRefresh_holds changed c) as [Hnd Hall].
  change (filtersToRefresh changed c1) with refs. fold refs chosen in Hnd, Hall.
  destruct (forEach_refreshAndApply (getFilteredColumnData gm) (applied_values gm)
              refs chosen c1 (getFilteredColumnData_applied_values gm) Hnd Hall)
    as (Hg & Ht & Hu & Hlen & Hfs & Hout).
  set (c2 := forEach refs (refreshAndApply (getFilteredColumnData gm)) c1) in *.
  assert (idle c2) as Hidle2.
  { unfold idle. rewrite Hg.
    destruct (cascade_grid_frame (applied_values gm) (tableAPI c1) chosen)
      as (_ & _ & _ & -> & _). done. }
  exists (note CallDraw c2). split; [by apply draw_idle|]. simpl.
  split_and!; try done.
  rewrite Ht. subst c1; simpl. by rewrite <- !app_assoc.
Qed.

(** X7.  A client-side change stays local: [onClientFilterChange] only
    applies column searches, refreshes filters and draws.  The grid's URL, its
    rows, its listeners and its header are what they were, no reload is asked
    for, and the coordinator keeps its base URL and the number of filters. *)
Theorem onClientFilterChange_local n changed c :
  idle c →
  ∃ c' calls, onClientFilterChange gm (draw (S n)) changed c = Some c' ∧
    trace c' = trace c ++ calls ∧
    Forall (λ k, local_call k = true) calls ∧
    ajaxUrl (tableAPI c') = ajaxUrl (tableAPI c) ∧
    aoData (tableAPI c') = aoData (tableAPI c) ∧
    listeners (tableAPI c') = listeners (tableAPI c) ∧
    header (tableAPI c') = header (tableAPI c) ∧
    url c' = url c ∧
    length (filters c') = length (filters c).
Proof.
  intros Hidle.
  destruct (onClientFilterChange_state n changed c Hidle)
    as (c' & Hrun & Hg & Ht & Hu & Hlen & _).
  destruct (cascade_grid_frame (applied_values gm)
              (column_search (column changed) (query_of changed) (tableAPI c))
              (refresh_set changed (filters c))) as (_ & Hrows & Hurl & Hls & Hhd).
  eexists c', _. split_and!; [done|exact Ht| |by rewrite Hg..|done|done].
  constructor; [done|]. apply Forall_app. split; [apply cascade_calls_local|].
  by repeat constructor.
Qed.

(** X8.  After a client-side change, each filter is where it was in the
    collection and is either the object it was or that object refreshed
    once. *)
Theorem onClientFilterChange_keeps_places n changed c :
  idle c →
  ∃ c', onClientFilterChange gm (draw (S n)) changed c = Some c' ∧
    length (filters c') = length (filters c) ∧
    ∀ (j : nat) f, filters c !! j = Some f →
      ∃ f', filters c' !! j = Some f' ∧ (f' = f ∨ ∃ d, f' = refresh d f).
Proof.
  intros Hidle.
  destruct (onClientFilterChange_state n changed c Hidle)
    as (c' & Hrun & _ & _ & _ & Hlen & Hfs & Hout).
  destruct (filtersToRefresh_holds changed c) as [_ Hall].
  exists c'. split_and!; [done..|]. intros j f Hj.
  destruct (decide (j ∈ filtersToRefresh changed c)) as [Hin|Hskip].
  - apply list_elem_of_lookup in Hin as [k Hk].
    destruct (Forall2_lookup_l _ _ _ _ _ Hall Hk) as (f0 & Hf0 & Hholds).
    unfold holds in Hholds. rewrite Hj in Hholds. injection Hholds as <-.
    destruct (Forall2_lookup_l _ _ _ _ _ Hfs Hk) as (f' & Hf' & Hholds').
    exists f'. split; [done|]. right.
    destruct (Forall2_lookup_l _ _ _ _ _
                (cascade_filters_refreshed (applied_values gm)
                   (column_search (column changed) (query_of changed) (tableAPI c))
                   (refresh_set changed (filters c))) Hf0) as (f'' & Hf'' & Href).
    rewrite Hf' in Hf''. by injection Hf'' as <-.
  - exists f. rewrite (Hout j Hskip). eauto.
Qed.

(** X9.  After a client-side change made by a filter of the collection, for
    filters on distinct columns whose [refresh] keeps them on their column,
    the search applied to each filter's column is the query that filter now
    has, and the search of every column without a filter is what it was. *)
Theorem onClientFilterChange_agrees n (i : nat) changed c :
  idle c →
  filters c !! i = Some changed →
  NoDup (column <$> filters c) →
  (∀ d f, column (refresh d f) = column f) →
  ∃ c', onClientFilterChange gm (draw (S n)) changed c = Some c' ∧
    agrees c' ∧
    ∀ j : nat, j ∉ column <$> filters c →
      aoPreSearchCols (tableAPI c') !! j = aoPreSearchCols (tableAPI c) !! j.
Proof.
  intros Hidle Hi Hnd Hcol.
  destruct (onClientFilterChange_state n changed c Hidle)
    as (c' & Hrun & Hg & _ & _ & _ & Hfs & Hout).
  set (g1 := column_search (column changed) (query_of changed) (tableAPI c)) in *.
  set (chosen := refresh_set changed (filters c)) in *.
  set (after := cascade_filters (applied_values gm) g1 chosen) in *.
  assert (aoPreSearchCols (tableAPI c') =
          foldl write (<[column changed := query_of changed]> (aoPreSearchCols (tableAPI c)))
                ((λ f, (column f, query_of f)) <$> after)) as Hss.
  { rewrite Hg. apply cascade_grid_searches. }
  assert (column <$> after = column <$> chosen) as Hcols
    by (by apply cascade_filters_columns).
  assert (NoDup (column <$> chosen)) as Hnd'.
  { unfold chosen, refresh_set. destruct (hasValue changed); [|done].
    by apply NoDup_fmap_filter. }
  assert (∀ j : nat, j ∈ column <$> chosen → j ∈ column <$> filters c) as Hsub.
  { unfold chosen, refresh_set. destruct (hasValue changed); [|done].
    intros j (f & -> & Hf)%list_elem_of_fmap. apply list_elem_of_fmap. exists f.
    split; [done|]. by apply list_elem_of_In, filter_In in Hf as [?%list_elem_of_In _]. }
  assert (column changed ∈ column <$> filters c) as Hchanged.
  { apply list_elem_of_fmap. exists changed. split; [done|].
    by eapply list_elem_of_lookup_2. }
  exists c'. split_and!; [done| |].
  - intros f' Hf' Hlt. rewrite Hss in Hlt |- *.
    rewrite length_foldl_write in Hlt.
    apply list_elem_of_lookup in Hf' as [j Hj].
    destruct (decide (j ∈ filtersToRefresh changed c)) as [Hin|Hskip].
    + apply list_elem_of_lookup in Hin as [k Hk].
      destruct (Forall2_lookup_l _ _ _ _ _ Hfs Hk) as (f'' & Hf'' & Hholds).
      unfold holds in Hholds. rewrite Hj in Hholds. injection Hholds as <-.
      apply foldl_write_agrees; [by rewrite Hcols| |done].
      by eapply list_elem_of_lookup_2.
    + rewrite (Hout j Hskip) in Hj.
      destruct (filtersToRefresh_skipped changed c j f' Hj Hskip) as [Hvalue Hsame].
      assert (j = i) as ->.
      { eapply NoDup_lookup; [exact Hnd| |].
        - rewrite list_lookup_fmap, Hj. done.
        - rewrite list_lookup_fmap, Hi. simpl. by rewrite Hsame. }
      rewrite Hi in Hj. injection Hj as <-.
      rewrite foldl_write_elsewhere.
      * apply list_lookup_insert_eq. by rewrite length_insert in Hlt.
      * rewrite Hcols. unfold chosen, refresh_set. rewrite Hvalue.
        intros (f & Hkey & Hf)%list_elem_of_fmap.
        apply list_elem_of_In, filter_In in Hf as [_ Hf].
        rewrite Hkey, Nat.eqb_refl in Hf. done.
  - intros j Hj. rewrite Hss, foldl_write_elsewhere.
    + apply list_lookup_insert_ne. intros <-. done.
    + rewrite Hcols. intros Hin. by apply Hj, Hsub.
Qed.
End ClientState.

(** ** The two accessors compared *)

Lemma filter_all_pass {A} (p : A → bool) (l : list A) :
  (∀ x, x ∈ l → p x = true) → List.filter p l = l.
Proof.
  induction l as [|x l IH]; intros Hall; [done|]. simpl.
  rewrite (Hall x) by left. f_equal. apply IH. intros y Hy. apply Hall. by right.
Qed.

(** X10.  The values [getFilteredColumnData] returns for a column are among
    those [getColumnData] returns for it, and the two lists are the same when
    every row passes the applied searches. *)
Theorem getFilteredColumnData_within {F : Type} (gm : Search → string → bool)
    (c : Filters F) (col : nat) :
  (∀ x, x ∈ getFilteredColumnData gm c col → x ∈ getColumnData c col) ∧
  ((∀ row, row ∈ aoData (tableAPI c) →
           row_passes gm (aoPreSearchCols (tableAPI c)) row = true) →
   getFilteredColumnData gm c col = getColumnData c col).
Proof.
  unfold getFilteredColumnData, getColumnData, applied_rows. split.
  - intros x. rewrite !elem_of_unique, !elem_of_cells.
    intros (row & Hrow & Hx). exists row. split; [|done].
    by apply list_elem_of_In, filter_In in Hrow as [?%list_elem_of_In _].
  - intros Hall. by rewrite filter_all_pass.
Qed.

(** ** The size of the collection *)

Section Size.
Context {F : Type} {ops : FilterOps F}.
Variable gm : Search → string → bool.
Variable builders : gmap string (Options → F).
Implicit Types (c : Filters F) (f : F) (g : Grid).

Lemma forEach_size refs (body : Filters F → nat → Filters F) c :
  (∀ c' i, length (filters (body c' i)) = length (filters c')) →
  length (filters (forEach refs body c)) = length (filters c).
Proof.
  intros Hbody. unfold forEach. revert c.
  induction refs as [|i refs IH]; intros c; simpl; [done|].
  rewrite IH. apply Hbody.
Qed.

Lemma refreshAndApply_size data_of c i :
  length (filters (refreshAndApply data_of c i)) = length (filters c).
Proof.
  unfold refreshAndApply. destruct (filters c !! i); [|done].
  simpl. apply length_insert.
Qed.

Lemma renderFilter_size c i : length (filters (renderFilter c i)) = length (filters c).
Proof.
  destruct (filters c !! i) as [f|] eqn:Hi.
  - rewrite (renderFilter_holds c i f Hi). simpl. apply length_insert.
  - unfold renderFilter. by rewrite Hi.
Qed.

Lemma refreshFilters_size drw : keeps_size drw → keeps_size (refreshFilters drw).
Proof.
  intros Hdrw c c' Hrun. unfold refreshFilters, drawTable in Hrun.
  apply Hdrw in Hrun. rewrite Hrun. apply forEach_size, refreshAndApply_size.
Qed.

Lemma onClientFilterChange_size drw changed :
  keeps_size drw → keeps_size (onClientFilterChange gm drw changed).
Proof.
  intros Hdrw c c' Hrun. unfold onClientFilterChange, drawTable in Hrun.
  apply Hdrw in Hrun. rewrite Hrun. by rewrite forEach_size by apply refreshAndApply_size.
Qed.

Lemma run_handler_size drw h : keeps_size drw → keeps_size (run_handler drw h).
Proof.
  intros Hdrw c c'. destruct h; simpl.
  - intros [= <-]. unfold onDataTableInit, renderFilters.
    by rewrite forEach_size by apply renderFilter_size.
  - by intros [= <-].
  - by apply refreshFilters_size.
Qed.

Lemma invoke_all_size drw ls : keeps_size drw → keeps_size (invoke_all drw ls).
Proof.
  intros Hdrw. induction ls as [|l ls IH]; intros c c'; simpl.
  - by intros [= <-].
  - destruct (invoke drw l c) as [c1|] eqn:Hl; [|done]. intros Hrest.
    apply IH in Hrest. rewrite Hrest.
    unfold invoke in Hl. apply run_handler_size in Hl; [|done].
    rewrite Hl. by destruct (l_once l).
Qed.

Lemma redraw_size n : keeps_size (redraw (F:=F) n).
Proof.
  induction n as [|n IH]; intros c c'; [done|].
  rewrite redraw_S. unfold trigger. apply invoke_all_size.
  intros c1 c2 Hdraw. by apply IH in Hdraw.
Qed.

Lemma draw_size n : keeps_size (draw (F:=F) n).
Proof. intros c c' Hdraw. by apply redraw_size in Hdraw. Qed.

(** X11.  The collection is fixed at construction: in every state of a
    coordinator built on the grid [g] there are as many filters as the
    constructor built, one per column of [g] that declares a descriptor. *)
Theorem reachable_size g c :
  reachable gm builders g c →
  length (filters c) = length (declared (aoColumns g)).
Proof.
  induction 1 as [c Hnew|n c c' _ IH Hrun|n rows c c' _ IH Hrun|n c c' _ IH Hrun
                 |n changed c c' _ IH Hrun|c _ IH|i f c _ IH|g' c _ IH]; try done.
  - unfold new_Filters in Hnew.
    destruct (build_filters builders (aoColumns g) 0 0 []) as [fs|e] eqn:Hbuild; [|done].
    apply build_filters_placement, Forall2_length in Hbuild.
    cbn [rbind] in Hnew. destruct (Nat.ltb_spec 0 (length fs)) as [Hlen|Hlen].
    + injection Hnew as <-. simpl.
      rewrite forEach_size; [|intros c' i; by destruct (filters c' !! i)].
      rewrite forEach_size; [done|].
      intros c' i. destruct (filters c' !! i); [|done]. simpl. apply length_insert.
    + injection Hnew as <-. simpl. lia.
  - unfold initialised, trigger in Hrun.
    apply invoke_all_size in Hrun; [congruence|apply draw_size].
  - unfold fetched, trigger in Hrun.
    destruct (invoke_all _ _ c) as [c1|] eqn:Hxhr; [|done].
    apply redraw_size in Hrun. apply invoke_all_size in Hxhr; [|apply draw_size].
    simpl in Hrun. congruence.
  - apply redraw_size in Hrun. congruence.
  - apply onClientFilterChange_size in Hrun; [congruence|apply draw_size].
  - simpl. by rewrite length_insert.
Qed.

(** X12.  Until the grid's [init] event the coordinator listens to nothing
    else: built on a grid nobody listens to yet, it lets a redraw and a
    completed fetch go by without running any of its code. *)
Theorem before_init_nothing_runs g c n rows :
  listeners g = [] →
  new_Filters builders g = Ok c →
  redraw (S n) c = Some c ∧ fetched (S n) rows c = Some (load rows c).
Proof.
  intros Hnone Hnew.
  assert (List.filter (on_event EvXhr) (listeners (tableAPI c)) = [] ∧
          List.filter (on_event EvPreDraw) (listeners (tableAPI c)) = [])
    as [Hxhr Hpre].
  { destruct (decide (filters c = [])) as [Hnil|Hne].
    - unfold new_Filters in Hnew.
      destruct (build_filters builders (aoColumns g) 0 0 []) as [fs|e]; [|done].
      cbn [rbind] in Hnew. destruct (Nat.ltb_spec 0 (length fs)) as [Hlen|Hlen].
      + exfalso. injection Hnew as <-. apply (f_equal length) in Hnil.
        simpl in Hnil.
        rewrite forEach_size in Hnil; [|intros c' i; by destruct (filters c' !! i)].
        rewrite forEach_size in Hnil; [simpl in Hnil; lia|].
        intros c' i. destruct (filters c' !! i); [|done]. simpl. apply length_insert.
      + injection Hnew as <-. simpl. by rewrite Hnone.
    - destruct (new_Filters_Ok builders g c Hnew Hne)
        as (fs & _ & _ & _ & _ & _ & _ & _ & -> & _).
      rewrite Hnone. done. }
  split; [by apply redraw_idle|].
  unfold fetched, trigger at 1. rewrite Hxhr. cbn [invoke_all].
  by apply redraw_idle.
Qed.
End Size.

(** ** More of the text-input filter *)

(** X13.  A text-input filter fresh from its builder has no element yet:
    [hasValue], [selectedQuery] and [reset] throw.  Once [init] has run they
    succeed: the filter has no value, its query is the empty initial query,
    and [reset] leaves it as it is. *)
Theorem InputFilter_needs_init (settings : Options) :
  let fresh := InputFilter.builder settings in
  (∃ e, InputFilter.hasValue fresh = Throw e) ∧
  (∃ e, InputFilter.selectedQuery fresh = Throw e) ∧
  (∃ e, InputFilter.reset fresh = Throw e) ∧
  InputFilter.hasValue (InputFilter.init fresh) = Ok false ∧
  InputFilter.selectedQuery (InputFilter.init fresh) =
    Ok (InputFilter.getInitialQuery fresh) ∧
  InputFilter.reset (InputFilter.init fresh) = Ok (InputFilter.init fresh) ∧
  InputFilter.column (InputFilter.init fresh) = o_column settings ∧
  InputFilter.renderColumn (InputFilter.init fresh) = o_renderColumn settings.
Proof. simpl. unfold InputFilter.undefined_dom. split_and!; eauto. Qed.

(** X14.  For an initialised text-input filter, [hasValue] answers true
    exactly when the selected query differs from the no-selection query;
    [reset] brings the selected query back to the no-selection query, keeps
    the filter's column and render column, and a second [reset] changes
    nothing. *)
Theorem InputFilter_value_and_reset (this : InputFilter.t) (v : string) :
  InputFilter.dom this = Some v →
  InputFilter.selectedQuery this = Ok v ∧
  InputFilter.hasValue this =
    Ok (bool_decide (v ≠ InputFilter.noSelectionQuery this)) ∧
  ∃ this',
    InputFilter.reset this = Ok this' ∧
    InputFilter.selectedQuery this' = Ok (InputFilter.noSelectionQuery this') ∧
    InputFilter.column this' = InputFilter.column this ∧
    InputFilter.renderColumn this' = InputFilter.renderColumn this ∧
    InputFilter.reset this' = Ok this'.
Proof.
  intros Hdom.
  unfold InputFilter.selectedQuery, InputFilter.hasValue, InputFilter.reset,
    InputFilter.noSelectionQuery.
  rewrite Hdom. split_and!; [done| |].
  - f_equal. destruct (String.eqb_spec v ""); simpl.
    + by rewrite bool_decide_false by (intros ?; done).
    + by rewrite bool_decide_true.
  - eexists. split_and!; done.
Qed.

(** * The further theorems on the example grids *)

Lemma build_filters_placement_witness :
  build_filters registry (aoColumns HiddenColumn.grid) 0 0 [] = Ok HiddenColumn.built ∧
  Forall2 (built_from registry (aoColumns HiddenColumn.grid)) [0; 1; 2] HiddenColumn.built.
Proof.
  assert (build_filters registry (aoColumns HiddenColumn.grid) 0 0 [] =
          Ok HiddenColumn.built) as Hbuild by (vm_compute; reflexivity).
  split; [exact Hbuild|].
  exact (build_filters_placement registry _ _ Hbuild).
Defined.



Lemma columns_distinct (v w z : string) :
  NoDup (column <$> [name_filter v; town_filter w; zip_filter z]).
Proof. apply (bool_decide_unpack _). vm_compute. exact I. Qed.

Lemma refreshFilters_agrees_witness :
  idle bob_picked ∧
  NoDup (column <$> filters bob_picked) ∧
  ∃ c', refreshFilters (draw 1) bob_picked = Some c' ∧ agrees c'.
Proof.
  split_and!; [reflexivity|exact (columns_distinct _ _ _)|].
  destruct (refreshFilters_agrees 0 bob_picked eq_refl (columns_distinct _ _ _)
              OptionListFilter_refresh_column) as (c' & Hrun & Hagree & _).
  exists c'. split; [exact Hrun|exact Hagree].
Defined.

Lemma onClientFilterChange_local_witness :
  idle rome_applied ∧
  ∃ c', onClientFilterChange substring_match (draw 1) (name_filter "a") rome_applied
          = Some c' ∧
    ajaxUrl (tableAPI c') = "/rows".
Proof.
  split; [reflexivity|].
  destruct (onClientFilterChange_local substring_match 0 (name_filter "a")
              rome_applied eq_refl)
    as (c' & calls & Hrun & _ & _ & Hurl & _).
  exists c'. split; [exact Hrun|exact Hurl].
Defined.

Lemma onClientFilterChange_keeps_places_witness :
  idle rome_applied ∧
  ∃ c', onClientFilterChange substring_match (draw 1) (name_filter "a") rome_applied
          = Some c' ∧
    length (filters c') = 3.
Proof.
  split; [reflexivity|].
  destruct (onClientFilterChange_keeps_places substring_match 0 (name_filter "a")
              rome_applied eq_refl)
    as (c' & Hrun & Hlen & _).
  exists c'. split; [exact Hrun|exact Hlen].
Defined.

Lemma onClientFilterChange_agrees_witness :
  idle rome_applied ∧
  filters rome_applied !! 0 = Some (name_filter "a") ∧
  ∃ c', onClientFilterChange substring_match (draw 1) (name_filter "a") rome_applied
          = Some c' ∧
    agrees c'.
Proof.
  split_and!; [reflexivity|reflexivity|].
  destruct (onClientFilterChange_agrees substring_match 0 0 (name_filter "a")
              rome_applied eq_refl eq_refl (columns_distinct _ _ _)
              OptionListFilter_refresh_column) as (c' & Hrun & Hagree & _).
  exists c'. split; [exact Hrun|exact Hagree].
Defined.

Lemma rendered_reachable :
  reachable substring_match registry people rendered.
Proof.
  apply (reach_initialised _ _ _ 1 constructed).
  - apply reach_new. vm_compute. reflexivity.
  - vm_compute. reflexivity.
Qed.

Lemma reachable_size_witness :
  reachable substring_match registry people (onServerFilterChange rendered) ∧
  length (filters (onServerFilterChange rendered)) = 3.
Proof.
  assert (reachable substring_match registry people (onServerFilterChange rendered))
    as Hreach by apply reach_server, rendered_reachable.
  split; [exact Hreach|].
  exact (reachable_size substring_match registry people _ Hreach).
Defined.

Lemma before_init_nothing_runs_witness :
  new_Filters registry people = Ok constructed ∧
  redraw 1 constructed = Some constructed ∧
  fetched 1 [["cy"; "bern"; "4"]] constructed = Some (load [["cy"; "bern"; "4"]] constructed).
Proof.
  assert (new_Filters registry people = Ok constructed) as Hnew
    by (vm_compute; reflexivity).
  split; [exact Hnew|].
  exact (before_init_nothing_runs registry people constructed 0 [["cy"; "bern"; "4"]]
           eq_refl Hnew).
Defined.

Lemma InputFilter_value_and_reset_witness :
  InputFilter.hasValue (InputFilter.mk 0 0 (Some "foo")) = Ok true ∧
  ∃ this',
    InputFilter.reset (InputFilter.mk 0 0 (Some "foo")) = Ok this' ∧
    InputFilter.reset this' = Ok this'.
Proof.
  destruct (InputFilter_value_and_reset (InputFilter.mk 0 0 (Some "foo")) "foo" eq_refl)
    as (_ & Hvalue & this' & Hreset & _ & _ & _ & Hagain).
  split; [exact Hvalue|].
  exists this'. split; [exact Hreset|exact Hagain].
Defined.

Lemma initialised_listening_witness :
  listeners people = [] ∧
  new_Filters registry people = Ok constructed ∧
  ∃ c', initialised 1 constructed = Some c' ∧ listening c' ∧ idle c'.
Proof.
  assert (new_Filters registry people = Ok constructed) as Hnew
    by (vm_compute; reflexivity).
  split_and!; [reflexivity|exact Hnew|].
  apply (initialised_listening registry people constructed 1 eq_refl Hnew).
  discriminate.
Defined.
